(** * browscap.py: the User-Agent matcher and the property resolver

    A shallow embedding of [UserAgentParser] (src/browscap.py) and the
    properties of it that the specification states.

    Conventions of the embedding.
    - The .ini file is read as latin-1, one byte per character, so a Python
      [str] is a [string] of 8-bit characters and [len] is [String.length].
    - A Python dict that the code iterates ([user_agent_regexps],
      [user_agent_properties]) is an association list in insertion order;
      a dict that is only looked up is a [gmap].
    - The property dicts kept in [user_agent_properties] are objects on a
      heap: [query] hands out the stored reference.
    - What the interpreter and the [re] module contribute (the regular
      expression engine, the iteration order of a [set], the recursion
      limit) is the class [PyRuntime]. *)

From Stdlib Require Import Ascii.
From stdpp Require Import gmap strings.

(** ** Python strings *)

(** [s.replace(old, new)] for a one-character [old]: every occurrence,
    left to right, in one pass. *)
Fixpoint str_replace (old : ascii) (new : string) (s : string) : string :=
  match s with
  | EmptyString => EmptyString
  | String c s' =>
      if decide (c = old) then new +:+ str_replace old new s'
      else String c (str_replace old new s')
  end.

(** [list("...")]: the characters of a string. *)
Fixpoint str_list (s : string) : list ascii :=
  match s with
  | EmptyString => []
  | String c s' => c :: str_list s'
  end.

(** ["".join(map f s)], used to state what the replacements amount to. *)
Fixpoint str_flat_map (f : ascii → string) (s : string) : string :=
  match s with
  | EmptyString => EmptyString
  | String c s' => f c +:+ str_flat_map f s'
  end.

Definition char_str (c : ascii) : string := String c EmptyString.

(** ** Pattern compiler: .ini glob syntax to Python regexp syntax
    (load, lines 58-64) *)

Definition unsafe_chars : string := "^$()[].-".

(** ["\%s" % unsafe_char]: a backslash and the character. *)
Definition escaped (unsafe_char : ascii) : string :=
  String "\"%char (char_str unsafe_char).

Definition escape_unsafe (section : string) : string :=
  foldl (λ user_agent_re unsafe_char,
           str_replace unsafe_char (escaped unsafe_char) user_agent_re)
        section (str_list unsafe_chars).

Definition ini_to_regex (section : string) : string :=
  let user_agent_re := escape_unsafe section in
  let user_agent_re :=
    str_replace "*"%char ".*?" (str_replace "?"%char "." user_agent_re) in
  "^" +:+ user_agent_re +:+ "$".

(** The translation in the words of the specification, one character at a
    time: the characters of [unsafe_chars] are escaped, [?] becomes the
    single-character primitive [.], [*] becomes the zero-or-more primitive
    [.*?], any other character stands for itself. *)
Definition spec_glob_char (c : ascii) : string :=
  if decide (c ∈ str_list unsafe_chars) then escaped c
  else if decide (c = "?"%char) then "."
  else if decide (c = "*"%char) then ".*?"
  else char_str c.

Definition spec_pattern (section : string) : string :=
  "^" +:+ str_flat_map spec_glob_char section +:+ "$".


(** ** Exceptions and results *)

Inductive exn : Type :=
  | Exception (msg : string)          (* [raise Exception(msg)] in the source *)
  | RecursionError                    (* maximum recursion depth exceeded *)
  | NoSectionError (section : string) (* configparser: no such section *)
  | KeyError (key : string)           (* dict subscript of an absent key *)
  | re_error (pattern : string).      (* re.compile rejects the pattern *)

Inductive result (A : Type) : Type :=
  | Ok (a : A)
  | Raise (e : exn).
Arguments Ok {A} a.
Arguments Raise {A} e.

#[global] Instance result_ret : MRet result := λ A a, Ok a.
#[global] Instance result_bind : MBind result := λ A B f m,
  match m with Ok a => f a | Raise e => Raise e end.

#[global] Instance exn_eq_dec : EqDecision exn.
Proof. solve_decision. Defined.

#[global] Instance result_eq_dec {A} `{EqDecision A} : EqDecision (result A).
Proof. solve_decision. Defined.

(** ** Dicts *)

(** A dict of str to str of which only the content is used. *)
Abbreviation props := (gmap string string).

(** [d.update(other)]: the keys of [other] overwrite those of [d]. *)
Definition dict_update (d other : props) : props := other ∪ d.

(** A dict in insertion order: [d[k] = v] keeps the place of a key that is
    already there and appends a new one. *)
Section ordered_dict.
Context {V : Type}.

Fixpoint dict_get (k : string) (d : list (string * V)) : option V :=
  match d with
  | [] => None
  | (k', v) :: d' => if decide (k' = k) then Some v else dict_get k d'
  end.

Fixpoint dict_set (k : string) (v : V) (d : list (string * V))
    : list (string * V) :=
  match d with
  | [] => [(k, v)]
  | (k', v') :: d' =>
      if decide (k' = k) then (k, v) :: d' else (k', v') :: dict_set k v d'
  end.

Definition dict_keys (d : list (string * V)) : list string := d.*1.
End ordered_dict.

(** ** The parsed .ini file

    [ConfigParser] is the file as configparser hands it to the code: section
    name to raw options, with the option names in lower case.  Reading and
    parsing the file is not part of the embedding.  The map holds the
    sections that the file declares, and the file is taken to declare no
    [DEFAULT] section, so that a section has the options written under it
    and no others.  The name "DEFAULT" itself can still be asked for (a
    section may name it as its parent), and configparser treats it unlike
    any other name that is not a section: see [items]. *)
Abbreviation ConfigParser := (gmap string (gmap string string)).

(** [cp.default_section]. *)
Definition default_section : string := "DEFAULT".

(** configparser expands [%(name)s] in a value when [get] or [items] reads
    it, and raises an InterpolationError for a [%] that it cannot expand.
    For a file without [%] in its values the two methods return the values
    as written, which is what [parent_of] and [items] below do; the
    embedding says nothing about a file with [%] in a value. *)
Definition no_interpolation (cp : ConfigParser) : Prop :=
  map_Forall (λ _ (raw : props),
    map_Forall (λ _ val, "%"%char ∉ str_list val) raw) cp.

(** [cp.sections()].  configparser lists the sections in the order of the
    file; the code goes through the list only to remove parents from a set,
    which comes out the same in any order ([elem_of_child_sections]). *)
Definition sections (cp : ConfigParser) : list string := (map_to_list cp).*1.

(** [cp.remove_section(name)]. *)
Definition remove_section (name : string) (cp : ConfigParser) : ConfigParser :=
  delete name cp.

(** [cp.has_option(section, "parent")] and [cp.get(section, "parent")] in
    one: the parent when the section exists and has the option.
    [has_option] is False for a name that is not a section, "DEFAULT"
    included (it looks the option up in the defaults, of which there are
    none). *)
Definition parent_of (cp : ConfigParser) (section : string) : option string :=
  raw ← cp !! section; raw !! "parent".

(** [dict(cp.items(section))].  configparser starts from a copy of the
    defaults and adds the options of the section; for a name that is not a
    section it raises NoSectionError, unless the name is "DEFAULT", for
    which it returns the defaults alone: no option at all here. *)
Definition items (cp : ConfigParser) (section : string) : result props :=
  match cp !! section with
  | Some raw => Ok raw
  | None =>
      if decide (section = default_section) then Ok ∅
      else Raise (NoSectionError section)
  end.

(** ** Property resolver (__get_browser_props, lines 155-173)

    [depth] is the number of nested calls the interpreter still allows; a
    call with none left raises RecursionError. *)
Fixpoint __get_browser_props (depth : nat) (cp : ConfigParser)
    (section : string) : result props :=
  match depth with
  | 0 => Raise RecursionError
  | S depth =>
      let result : props := ∅ in
      result ← match parent_of cp section with
               | Some parent =>
                   parent_properties ← __get_browser_props depth cp parent;
                   mret (dict_update result parent_properties)
               | None => mret result
               end;
      my_properties ← items cp section;
      mret (dict_update result my_properties)
  end.

(** The non-parent sections (load, lines 38-45). *)
Definition child_sections (cp : ConfigParser) : gset string :=
  foldl (λ (child_sections : gset string) section,
           match parent_of cp section with
           | Some parent =>
               if decide (parent ∈ child_sections)
               then child_sections ∖ {[parent]} else child_sections
           | None => child_sections
           end)
        (list_to_set (sections cp)) (sections cp).

(** ** What Python supplies *)

Class PyRuntime : Type := {
  (** a compiled pattern object of the [re] module *)
  regex : Type;
  (** [re.compile(pattern)]; [None] when it raises re.error *)
  re_compile : string → option regex;
  (** [pattern.match(s)] is not None *)
  re_match : regex → string → bool;
  (** the order in which [for x in a_set] visits a set of str *)
  set_iter : gset string → list string;
  set_iter_perm : ∀ X, set_iter X ≡ₚ elements X;
  (** nested calls of __get_browser_props available to [load] *)
  recursion_limit : nat;
}.

(** ** The parser object *)

Definition loc := nat.

(** What [query] returns: the dict stored in the catalog (by reference), or
    a dict created by the call itself. *)
Inductive value : Type :=
  | Stored (l : loc)
  | Fresh (d : props).

#[global] Instance value_eq_dec : EqDecision value.
Proof. solve_decision. Defined.

Section parser.
Context `{PyRuntime}.

(** [heap] holds the dict objects that [user_agent_properties] refers to;
    the three other fields are the attributes set by [__init__]. *)
Record UserAgentParser : Type := {
  heap : list props;
  user_agent_properties : list (string * loc);
  user_agent_regexps : list (string * regex);
  __match_cache : gmap string string;
}.

(** [__init__]. *)
Definition init : UserAgentParser :=
  {| heap := []; user_agent_properties := []; user_agent_regexps := [];
     __match_cache := ∅ |}.

(** Lines 56 and 69 of [load]. *)
Definition set_properties (section : string) (properties : props)
    (self : UserAgentParser) : UserAgentParser :=
  {| heap := heap self ++ [properties];
     user_agent_properties :=
       dict_set section (length (heap self)) (user_agent_properties self);
     user_agent_regexps := user_agent_regexps self;
     __match_cache := __match_cache self |}.

Definition set_regexp (section : string) (user_agent_re : regex)
    (self : UserAgentParser) : UserAgentParser :=
  {| heap := heap self;
     user_agent_properties := user_agent_properties self;
     user_agent_regexps :=
       dict_set section user_agent_re (user_agent_regexps self);
     __match_cache := __match_cache self |}.

(** The loop of [load] (lines 48-69) over the child sections in the order
    the set yields them.  A section whose properties fail to resolve is
    reported and skipped; re.error is not caught and ends [load] with the
    properties of that section already stored. *)
Fixpoint load_sections (cp : ConfigParser) (child_sections : list string)
    (self : UserAgentParser) : UserAgentParser * option exn :=
  match child_sections with
  | [] => (self, None)
  | section :: rest =>
      match __get_browser_props recursion_limit cp section with
      | Raise e => load_sections cp rest self
      | Ok properties =>
          let self := set_properties section properties self in
          let user_agent_re := ini_to_regex section in
          match re_compile user_agent_re with
          | None => (self, Some (re_error user_agent_re))
          | Some user_agent_re =>
              load_sections cp rest (set_regexp section user_agent_re self)
          end
      end
  end.

(** [load] (lines 31-69), from the parsed file on. *)
Definition load (cp : ConfigParser) (self : UserAgentParser)
    : UserAgentParser * option exn :=
  let cp := remove_section "GJK_Browscap_Version" (remove_section "*" cp) in
  load_sections cp (set_iter (child_sections cp)) self.

(** [__check_init] (lines 126-130). *)
Definition __check_init (self : UserAgentParser) : result unit :=
  match user_agent_regexps self with
  | [] => Raise (Exception
      "Browser properties not initialized. Must call load(..) method first.")
  | _ => Ok ()
  end.

(** The scan of [__match] (lines 144-148): the body of the loop, and the
    loop over the keys of [user_agent_regexps], each with its value. *)
Definition scan_step (user_agent_string : string) (matching_section : string)
    (entry : string * regex) : string :=
  let '(section, user_agent_re) := entry in
  if re_match user_agent_re user_agent_string
     && bool_decide (String.length matching_section < String.length section)
  then section else matching_section.

Definition scan (regexps : list (string * regex)) (user_agent_string : string)
    : string :=
  foldl (scan_step user_agent_string) "" regexps.

(** [__match] (lines 134-152). *)
Definition __match (self : UserAgentParser) (user_agent_string : string)
    : UserAgentParser * string :=
  match __match_cache self !! user_agent_string with
  | Some cached => (self, cached)
  | None =>
      let matching_section := scan (user_agent_regexps self) user_agent_string in
      ({| heap := heap self;
          user_agent_properties := user_agent_properties self;
          user_agent_regexps := user_agent_regexps self;
          __match_cache :=
            <[user_agent_string := matching_section]> (__match_cache self) |},
       matching_section)
  end.

(** [query] (lines 107-124). *)
Definition query (self : UserAgentParser) (user_agent_string : string)
    (safe : bool) : UserAgentParser * result value :=
  match __check_init self with
  | Raise e => (self, Raise e)
  | Ok _ =>
      let '(self, section) := __match self user_agent_string in
      if decide (section = "") then
        if safe then (self, Ok (Fresh ∅))
        else (self, Raise (Exception
                ("Unknown user agent: [" +:+ user_agent_string +:+ "]")))
      else
        match dict_get section (user_agent_properties self) with
        | Some properties => (self, Ok (Stored properties))
        | None => (self, Raise (KeyError section))
        end
  end.

(** [get_all_user_agents] (lines 101-105). *)
Definition get_all_user_agents (self : UserAgentParser) : result (list string) :=
  _ ← __check_init self; mret (dict_keys (user_agent_properties self)).

(** What a caller can do with a dict it got from [query]:
    [returned[key] = val]. *)
Definition caller_setitem (l : loc) (key val : string)
    (self : UserAgentParser) : UserAgentParser :=
  {| heap := alter (λ d : props, <[key := val]> d) l (heap self);
     user_agent_properties := user_agent_properties self;
     user_agent_regexps := user_agent_regexps self;
     __match_cache := __match_cache self |}.
End parser.

#[global] Instance parser_eq_dec `{PyRuntime} `{EqDecision regex} :
  EqDecision UserAgentParser.
Proof. solve_decision. Defined.

(** ** A regular expression engine

    The part of Python's [re] that the patterns of [load] live in: literal
    characters, backslash escapes of punctuation, the dot, the anchors and
    the postfix quantifiers on one character, greedy or lazy.  No flags are
    set, so the dot takes any character but a line feed, [^] holds at the
    start of the string and [$] at its end or before a line feed that ends
    it.

    This is a fragment of the language of [re], and [sre_compile] is
    CPython's compiler on the fragment only.  Its result [None] means that
    CPython raises re.error or that the pattern is outside the fragment:
    alternation ([|]), counted repeats ([{]), groups, classes, a backslash
    followed by a letter or a digit, and a quantifier on a quantifier (the
    possessive [++] of CPython 3.11) are patterns that CPython may well
    compile and for which [sre_compile] has no result.  What is proved with
    this engine is therefore stated for patterns inside the fragment: the
    patterns of identifiers made of glob syntax and literal characters
    ([plain] below) and, as the one case of [None], a quantifier right after
    the opening anchor, which CPython rejects as well ("nothing to
    repeat"). *)
Module sre.
Inductive atom : Type :=
  | Lit (c : ascii)
  | Dot.

Inductive node : Type :=
  | Bol
  | Eol
  | One (a : atom)
  | Star (a : atom) (lazy : bool)
  | Plus (a : atom) (lazy : bool)
  | Opt (a : atom) (lazy : bool).

#[global] Instance atom_eq_dec : EqDecision atom.
Proof. solve_decision. Defined.

#[global] Instance node_eq_dec : EqDecision node.
Proof. solve_decision. Defined.

Definition is_alnum (c : ascii) : bool :=
  let n := nat_of_ascii c in
  (48 <=? n) && (n <=? 57) || (65 <=? n) && (n <=? 90)
  || (97 <=? n) && (n <=? 122).

(** A quantifier applies to the single character before it; anything else
    there is "nothing to repeat" or "multiple repeat". *)
Definition quantify (mk : atom → bool → node) (ns : list node)
    : option (list node) :=
  match ns with
  | One a :: ns' => Some (mk a false :: ns')
  | _ => None
  end.

(** [?] makes a greedy quantifier lazy, and is a quantifier itself after
    a single character. *)
Definition question (ns : list node) : option (list node) :=
  match ns with
  | One a :: ns' => Some (Opt a false :: ns')
  | Star a false :: ns' => Some (Star a true :: ns')
  | Plus a false :: ns' => Some (Plus a true :: ns')
  | Opt a false :: ns' => Some (Opt a true :: ns')
  | _ => None
  end.

(** The parser reads one character at a time; its state is the nodes read
    so far, last first, and whether a backslash is pending. *)
Definition step (st : list node * bool) (c : ascii)
    : option (list node * bool) :=
  let '(ns, esc) := st in
  if esc then
    if is_alnum c then None else Some (One (Lit c) :: ns, false)
  else if decide (c = "\"%char) then Some (ns, true)
  else if decide (c = "^"%char) then Some (Bol :: ns, false)
  else if decide (c = "$"%char) then Some (Eol :: ns, false)
  else if decide (c = "."%char) then Some (One Dot :: ns, false)
  else if decide (c = "*"%char) then ns' ← quantify Star ns; Some (ns', false)
  else if decide (c = "+"%char) then ns' ← quantify Plus ns; Some (ns', false)
  else if decide (c = "?"%char) then ns' ← question ns; Some (ns', false)
  else if decide (c ∈ str_list "|()[{") then None
  else Some (One (Lit c) :: ns, false).

Definition parse_from (st : list node * bool) (pattern : string)
    : option (list node * bool) :=
  foldl (λ st c, st ≫= λ st, step st c) (Some st) (str_list pattern).

Definition sre_compile (pattern : string) : option (list node) :=
  '(ns, esc) ← parse_from ([], false) pattern;
  if esc : bool then None else Some (reverse ns).

Definition line_feed : ascii := "010"%char.

Definition atom_ok (a : atom) (c : ascii) : bool :=
  match a with
  | Lit d => bool_decide (c = d)
  | Dot => bool_decide (c ≠ line_feed)
  end.

Definition at_end (s : string) : bool :=
  bool_decide (s = "") || bool_decide (s = char_str line_feed).

(** Zero or more characters of [a], then the continuation [k]. *)
Fixpoint repeat_then (a : atom) (k : bool → string → bool)
    (bos : bool) (s : string) : bool :=
  k bos s
  || match s with
     | String c s' => atom_ok a c && repeat_then a k false s'
     | EmptyString => false
     end.

(** [run ns bos s]: the nodes [ns] match a prefix of [s]; [bos] says that
    [s] is the whole subject string.  Whether a quantifier is lazy decides
    which match is found, not whether there is one. *)
Fixpoint run (ns : list node) (bos : bool) (s : string) : bool :=
  match ns with
  | [] => true
  | Bol :: ns => bos && run ns bos s
  | Eol :: ns => at_end s && run ns bos s
  | One a :: ns =>
      match s with
      | String c s' => atom_ok a c && run ns false s'
      | EmptyString => false
      end
  | Star a _ :: ns => repeat_then a (run ns) bos s
  | Plus a _ :: ns =>
      match s with
      | String c s' => atom_ok a c && repeat_then a (run ns) false s'
      | EmptyString => false
      end
  | Opt a _ :: ns =>
      run ns bos s
      || match s with
         | String c s' => atom_ok a c && run ns false s'
         | EmptyString => false
         end
  end.

(** [pattern.match(s)]: a match that starts at the start of [s]. *)
Definition sre_match (pattern : list node) (s : string) : bool :=
  run pattern true s.
End sre.

(** CPython with its default recursion limit and the engine above, so with
    [re.compile] as CPython has it on the patterns of the fragment; a set
    is visited in the order of [elements]. *)
#[global] Instance cpython : PyRuntime := {|
  regex := list sre.node;
  re_compile := sre.sre_compile;
  re_match := sre.sre_match;
  set_iter := elements;
  set_iter_perm := λ X, Permutation_refl (elements X);
  recursion_limit := 1000;
|}.

#[global] Instance cpython_regex_eq_dec : EqDecision (@regex cpython) :=
  list_eq_dec (A := sre.node).

(** ** Notions of the specification *)

(** Glob matching in the words of the specification: [?] is any single
    character, [*] any run of characters, the empty one included, every
    other character matches itself, and the whole string is matched. *)
Inductive spec_glob : string → string → Prop :=
  | spec_glob_end : spec_glob "" ""
  | spec_glob_star g run s :
      spec_glob g s → spec_glob (String "*"%char g) (run +:+ s)
  | spec_glob_any g c s :
      spec_glob g s → spec_glob (String "?"%char g) (String c s)
  | spec_glob_lit g c s :
      c ≠ "*"%char → c ≠ "?"%char →
      spec_glob g s → spec_glob (String c g) (String c s).

(** The characters that mean something to [re] and that [load] neither
    escapes nor translates. *)
Definition residual_chars : string := "\+|{".

(** An identifier made of glob syntax and literal characters only. *)
Definition plain (section : string) : Prop :=
  Forall (λ c, c ∉ str_list residual_chars) (str_list section).

Definition no_line_feed (s : string) : Prop := sre.line_feed ∉ str_list s.

(** The node of the engine that a character of a plain identifier becomes. *)
Definition glob_node (c : ascii) : sre.node :=
  if decide (c = "*"%char) then sre.Star sre.Dot true
  else if decide (c = "?"%char) then sre.One sre.Dot
  else sre.One (sre.Lit c).

(** The [n]-th ancestor of a section along the "parent" options. *)
Fixpoint ancestor (cp : ConfigParser) (n : nat) (section : string)
    : option string :=
  match n with
  | 0 => Some section
  | S n => parent ← parent_of cp section; ancestor cp n parent
  end.

(** A section that is its own ancestor, and a section whose parent chain
    leads to one. *)
Definition on_cycle (cp : ConfigParser) (section : string) : Prop :=
  ∃ n, 0 < n ∧ ancestor cp n section = Some section.

Definition reaches_cycle (cp : ConfigParser) (section : string) : Prop :=
  ∃ n t, ancestor cp n section = Some t ∧ on_cycle cp t.

(** The file without its meta sections, as [load] uses it. *)
Definition without_meta (cp : ConfigParser) : ConfigParser :=
  remove_section "GJK_Browscap_Version" (remove_section "*" cp).

Section states.
Context `{PyRuntime}.

(** A parser that was constructed, loaded once without an exception, and
    queried any number of times. *)
Inductive loaded (cp : ConfigParser) : UserAgentParser → Prop :=
  | loaded_load self :
      load cp init = (self, None) → loaded cp self
  | loaded_query self user_agent_string safe :
      loaded cp self → loaded cp (query self user_agent_string safe).1.

(** The same parser with another table of patterns. *)
Definition with_regexps (regexps : list (string * regex))
    (self : UserAgentParser) : UserAgentParser :=
  {| heap := heap self;
     user_agent_properties := user_agent_properties self;
     user_agent_regexps := regexps;
     __match_cache := __match_cache self |}.
End states.

(** A function on strings that goes through concatenation is determined by
    what it does to single characters. *)
Definition str_hom (h : string → string) : Prop :=
  h "" = "" ∧ ∀ a b, h (a +:+ b) = h a +:+ h b.

(** The body of [ini_to_regex], between the anchors. *)
Definition translate (section : string) : string :=
  str_replace "*"%char ".*?" (str_replace "?"%char "." (escape_unsafe section)).

(** ** Invariants of the parser *)

Section invariants.
Context `{PyRuntime}.

(** Every stored property dict is the resolution of its section in [cp]. *)
Definition props_ok (cp : ConfigParser) (self : UserAgentParser) : Prop :=
  ∀ section l, dict_get section (user_agent_properties self) = Some l →
    ∃ properties, heap self !! l = Some properties ∧
      __get_browser_props recursion_limit cp section = Ok properties.

(** Every stored pattern is the compiled identifier of its section, and
    the section has properties. *)
Definition regexps_ok (self : UserAgentParser) : Prop :=
  ∀ section user_agent_re,
    dict_get section (user_agent_regexps self) = Some user_agent_re →
    re_compile (ini_to_regex section) = Some user_agent_re ∧
    is_Some (dict_get section (user_agent_properties self)).

(** Both tables hold sections of [leaves] only. *)
Definition keys_in (leaves : gset string) (self : UserAgentParser) : Prop :=
  (∀ section, section ∈ dict_keys (user_agent_properties self) → section ∈ leaves)
  ∧ (∀ section, section ∈ dict_keys (user_agent_regexps self) → section ∈ leaves).

(** Every cached selection is what the scan selects. *)
Definition cache_ok (self : UserAgentParser) : Prop :=
  ∀ user_agent_string cached,
    __match_cache self !! user_agent_string = Some cached →
    cached = scan (user_agent_regexps self) user_agent_string.

(** Every leaf of [cp] that resolves has a pattern in the catalog. *)
Definition complete (cp : ConfigParser) (self : UserAgentParser) : Prop :=
  ∀ section properties, section ∈ child_sections cp →
    __get_browser_props recursion_limit cp section = Ok properties →
    is_Some (dict_get section (user_agent_regexps self)).

(** What [query] returns for the section that [__match] selected. *)
Definition answer (properties : list (string * loc)) (section : string)
    (user_agent_string : string) (safe : bool) : result value :=
  if decide (section = "") then
    if safe then Ok (Fresh ∅)
    else Raise (Exception
           ("Unknown user agent: [" +:+ user_agent_string +:+ "]"))
  else
    match dict_get section properties with
    | Some l => Ok (Stored l)
    | None => Raise (KeyError section)
    end.

Record catalog_inv (cp : ConfigParser) (self : UserAgentParser) : Prop := {
  inv_props : props_ok cp self;
  inv_regexps : regexps_ok self;
  inv_keys : keys_in (child_sections cp) self;
  inv_nodup : NoDup (dict_keys (user_agent_regexps self));
  inv_cache : cache_ok self;
  inv_complete : complete cp self;
}.
End invariants.

(** ** Example databases *)

Definition db_mozilla : ConfigParser :=
  {[ "*" := {[ "browser" := "Default Browser" ]};
     "GJK_Browscap_Version" := {[ "version" := "1" ]};
     "DefaultProperties" := {[ "browser" := "Default"; "platform" := "unknown" ]};
     "Firefox" := {[ "parent" := "DefaultProperties"; "browser" := "Firefox" ]};
     "Mozilla*" := {[ "parent" := "DefaultProperties"; "browser" := "Mozilla" ]};
     "Mozilla/5.0*Firefox*" := {[ "parent" := "Firefox"; "version" := "1.0" ]} ]}.

Definition db_opera : ConfigParser :=
  {[ "Opera/9.*" := {[ "browser" := "Opera"; "version" := "9.0" ]} ]}.

Definition db_cycle : ConfigParser :=
  {[ "A" := {[ "parent" := "B"; "browser" := "a" ]};
     "B" := {[ "parent" := "A"; "browser" := "b" ]};
     "Leaf*" := {[ "parent" := "A" ]};
     "Wget*" := {[ "browser" := "Wget" ]} ]}.

(** The parser after [load] of [db_mozilla], and the dict that resolves
    the section "Mozilla/5.0*Firefox*" there. *)
Definition mozilla_parser : UserAgentParser := (load db_mozilla init).1.

Definition firefox_properties : props :=
  {[ "parent" := "Firefox"; "version" := "1.0"; "browser" := "Firefox";
     "platform" := "unknown" ]}.

(** A parser loaded with [db_opera] and queried for two strings, and the
    same parser after a second load, of [db_mozilla]. *)
Definition opera_agent : string := "Opera/9.00 (X11; Linux i686; U; en)".
Definition firefox_agent : string := "Mozilla/5.0 Firefox/1.0".

Definition opera_properties : props :=
  {[ "browser" := "Opera"; "version" := "9.0" ]}.

Definition opera_parser : UserAgentParser :=
  (query (query (load db_opera init).1 opera_agent false).1 firefox_agent true).1.

Definition reloaded_parser : UserAgentParser :=
  (load db_mozilla opera_parser).1.

(** The identifier and the strings of the pattern example. *)
Definition firefox_glob : string := "Mozilla/5.0*Firefox/1.?.*".
Definition firefox_on_x11 : string := "Mozilla/5.0 (X11) Firefox/1.5.0.5".
Definition firefox_2 : string := "Mozilla/4.0 Firefox/2.0".

(** A leaf whose parent is not a section of the file. *)
Definition db_orphan : ConfigParser :=
  {[ "Leaf*" := {[ "parent" := "Missing"; "browser" := "Leaf" ]} ]}.

(** ** Histories of a parser *)

Section histories.
Context `{PyRuntime}.

(** One operation on a parser: a load, whatever its outcome, a query, or an
    assignment by a caller to a key of a dict object. *)
Inductive step : UserAgentParser → UserAgentParser → Prop :=
  | step_load cp self : step self (load cp self).1
  | step_query self user_agent_string safe :
      step self (query self user_agent_string safe).1
  | step_setitem self l key val : step self (caller_setitem l key val self).

(** A parser that was constructed and then used in any way. *)
Definition reachable (self : UserAgentParser) : Prop := rtc step init self.

(** What every use of a parser keeps: the keys of the pattern table are
    distinct and are keys of the property table, the property table refers
    to dict objects that exist, and the cache holds the empty string or keys
    of the pattern table. *)
Record tables_inv (self : UserAgentParser) : Prop := {
  tables_nodup : NoDup (dict_keys (user_agent_regexps self));
  tables_props : ∀ section, section ∈ dict_keys (user_agent_regexps self) →
                   section ∈ dict_keys (user_agent_properties self);
  tables_heap : ∀ section l,
                  dict_get section (user_agent_properties self) = Some l →
                  is_Some (heap self !! l);
  tables_cache : ∀ user_agent_string cached,
                   __match_cache self !! user_agent_string = Some cached →
                   cached = "" ∨ cached ∈ dict_keys (user_agent_regexps self);
}.
End histories.

(** The two messages of [query]. *)
Definition not_initialized : exn :=
  Exception "Browser properties not initialized. Must call load(..) method first.".

Definition unknown_user_agent (user_agent_string : string) : exn :=
  Exception ("Unknown user agent: [" +:+ user_agent_string +:+ "]").

(** The pattern object that CPython compiles for an identifier (the empty
    pattern when it compiles none), and a pattern table with two entries. *)
Definition compiled (section : string) : regex :=
  default [] (re_compile (ini_to_regex section)).

Definition two_patterns : list (string * regex) :=
  [("Mozilla*", compiled "Mozilla*");
   ("Mozilla/5.0*Firefox*", compiled "Mozilla/5.0*Firefox*")].

(** An identifier without backslash. *)
Definition backslash_free (section : string) : Prop :=
  "\"%char ∉ str_list section.

(** A file with a leaf whose identifier starts with a plus sign. *)
Definition db_plus : ConfigParser :=
  {[ "+http*" := {[ "browser" := "Bot" ]} ]}.

(** A chain of three sections, and a leaf below a section that is missing. *)
Definition db_chain : ConfigParser :=
  {[ "Root" := {[ "browser" := "Default"; "platform" := "unknown";
                  "version" := "0" ]};
     "Mid" := {[ "parent" := "Root"; "browser" := "Mid" ]};
     "Leaf?" := {[ "parent" := "Mid"; "version" := "2" ]};
     "Lost*" := {[ "parent" := "Gone"; "browser" := "Lost" ]} ]}.

(** A leaf whose parent is "DEFAULT", in a file without DEFAULT section. *)
Definition db_default : ConfigParser :=
  {[ "Leaf*" := {[ "parent" := "DEFAULT"; "browser" := "Leaf" ]} ]}.

(** * Properties *)

(** ** Strings and the pattern compiler *)

Lemma str_list_app a b : str_list (a +:+ b) = str_list a ++ str_list b.
Proof.
  induction a as [|c a IH]; [done|].
  change (String c a +:+ b) with (String c (a +:+ b)). simpl. by rewrite IH.
Qed.

Lemma str_app_assoc (a b c : string) : (a +:+ b) +:+ c = a +:+ (b +:+ c).
Proof.
  induction a as [|x a IH]; [done|].
  change (String x ((a +:+ b) +:+ c) = String x (a +:+ (b +:+ c))).
  by rewrite IH.
Qed.

Lemma str_replace_app old new a b :
  str_replace old new (a +:+ b)
  = str_replace old new a +:+ str_replace old new b.
Proof.
  induction a as [|c a IH]; [done|].
  change (String c a +:+ b) with (String c (a +:+ b)). simpl. rewrite IH.
  case_decide; [by rewrite str_app_assoc | done].
Qed.

Lemma str_hom_replace old new : str_hom (str_replace old new).
Proof. split; [done | apply str_replace_app]. Qed.

Lemma str_hom_compose h1 h2 : str_hom h1 → str_hom h2 → str_hom (h2 ∘ h1).
Proof.
  intros [E1 A1] [E2 A2]. split; simpl.
  - by rewrite E1.
  - intros a b. by rewrite A1, A2.
Qed.

Lemma str_hom_flat_map h s :
  str_hom h → h s = str_flat_map (λ c, h (char_str c)) s.
Proof.
  intros [E A]. induction s as [|c s IH]; [done|].
  change (String c s) with (char_str c +:+ s). rewrite A, IH. done.
Qed.

Lemma str_hom_escape_unsafe : str_hom escape_unsafe.
Proof.
  unfold escape_unsafe.
  generalize (str_list unsafe_chars). intros l.
  induction l as [|c l IH] using rev_ind.
  - by split.
  - split.
    + rewrite foldl_app. simpl. by rewrite (proj1 IH).
    + intros a b. rewrite !foldl_app. simpl.
      by rewrite (proj2 IH), str_replace_app.
Qed.

Lemma str_hom_translate : str_hom translate.
Proof.
  apply (str_hom_compose escape_unsafe
           (str_replace "*"%char ".*?" ∘ str_replace "?"%char ".")).
  - apply str_hom_escape_unsafe.
  - apply str_hom_compose; apply str_hom_replace.
Qed.

Lemma translate_char c : translate (char_str c) = spec_glob_char c.
Proof. destruct c as [[] [] [] [] [] [] [] []]; by vm_compute. Qed.

Lemma ini_to_regex_spec section : ini_to_regex section = spec_pattern section.
Proof.
  change (ini_to_regex section) with ("^" +:+ translate section +:+ "$").
  unfold spec_pattern.
  rewrite (str_hom_flat_map translate) by apply str_hom_translate.
  f_equal. f_equal.
  induction section as [|c s IH]; [done|]. simpl. by rewrite translate_char, IH.
Qed.

(** ** The engine on the patterns of plain identifiers *)

Lemma parse_from_None pattern :
  foldl (λ st c, st ≫= λ st, sre.step st c) None (str_list pattern) = None.
Proof. induction (str_list pattern) as [|c l IH]; [done | apply IH]. Qed.

Lemma parse_from_app st a b :
  sre.parse_from st (a +:+ b)
  = sre.parse_from st a ≫= λ st', sre.parse_from st' b.
Proof.
  unfold sre.parse_from. rewrite str_list_app, foldl_app.
  destruct (foldl _ (Some st) (str_list a)) as [st'|]; [done|].
  apply parse_from_None.
Qed.

Lemma parse_glob_char ns c :
  c ∉ str_list residual_chars →
  sre.parse_from (ns, false) (spec_glob_char c) = Some (glob_node c :: ns, false).
Proof.
  intros Hc.
  destruct c as [[] [] [] [] [] [] [] []];
    first [ by vm_compute | exfalso; apply Hc; vm_compute; set_solver ].
Qed.

Lemma parse_glob ns section :
  plain section →
  sre.parse_from (ns, false) (str_flat_map spec_glob_char section)
  = Some (reverse (glob_node <$> str_list section) ++ ns, false).
Proof.
  revert ns. induction section as [|c s IH]; intros ns Hplain; [done|].
  apply Forall_cons in Hplain as [Hc Hs].
  simpl. rewrite parse_from_app, parse_glob_char by done.
  simpl. rewrite IH by done. by rewrite reverse_cons, <- app_assoc.
Qed.

Lemma sre_compile_plain section :
  plain section →
  sre.sre_compile (ini_to_regex section)
  = Some (sre.Bol :: (glob_node <$> str_list section) ++ [sre.Eol]).
Proof.
  intros Hplain. rewrite ini_to_regex_spec. unfold spec_pattern, sre.sre_compile.
  rewrite parse_from_app.
  change (sre.parse_from ([], false) "^") with (Some ([sre.Bol], false)).
  simpl. rewrite parse_from_app, parse_glob by done. simpl.
  change (sre.parse_from ?st "$") with (sre.step st "$"%char). simpl.
  by rewrite reverse_cons, reverse_app, reverse_involutive.
Qed.

Lemma no_line_feed_cons c s :
  no_line_feed (String c s) ↔ c ≠ sre.line_feed ∧ no_line_feed s.
Proof.
  unfold no_line_feed. simpl. rewrite not_elem_of_cons.
  split; intros [? ?]; by split.
Qed.

Lemma spec_glob_nil_iff u : spec_glob "" u ↔ u = "".
Proof. split; [by inversion 1 | intros ->; constructor]. Qed.

Lemma spec_glob_star_iff g u :
  spec_glob (String "*"%char g) u ↔ ∃ r s, u = r +:+ s ∧ spec_glob g s.
Proof.
  split.
  - inversion 1; subst; [by eauto | done].
  - intros (r & s & -> & Hs). by constructor.
Qed.

Lemma spec_glob_any_iff g u :
  spec_glob (String "?"%char g) u ↔ ∃ d u', u = String d u' ∧ spec_glob g u'.
Proof.
  split.
  - inversion 1; subst; [by eauto | done].
  - intros (d & u' & -> & Hs). by constructor.
Qed.

Lemma spec_glob_lit_iff c g u :
  c ≠ "*"%char → c ≠ "?"%char →
  spec_glob (String c g) u ↔ ∃ u', u = String c u' ∧ spec_glob g u'.
Proof.
  intros Hstar Hany. split.
  - inversion 1; subst; [done | done | by eauto].
  - intros (u' & -> & Hs). by constructor.
Qed.

Lemma repeat_then_dot (k : bool → string → bool) (P : string → Prop) :
  (∀ bos s, no_line_feed s → k bos s = true ↔ P s) →
  ∀ bos u, no_line_feed u →
    sre.repeat_then sre.Dot k bos u = true ↔ ∃ r s, u = r +:+ s ∧ P s.
Proof.
  intros Hk bos u. revert bos. induction u as [|c u IH]; intros bos Hu; simpl.
  - rewrite orb_false_r, Hk by done. split.
    + intros HP. by exists "", "".
    + intros (r & s & Heq & HP). destruct r as [|d r].
      * change ("" = s) in Heq. by subst s.
      * change ("" = String d (r +:+ s)) in Heq. done.
  - apply no_line_feed_cons in Hu as [Hc Hu].
    rewrite orb_true_iff, andb_true_iff, bool_decide_eq_true, IH by done.
    rewrite Hk by by apply no_line_feed_cons.
    split.
    + intros [HP | [_ (r & s & -> & HP)]].
      * by exists "", (String c u).
      * by exists (String c r), s.
    + intros (r & s & Heq & HP). destruct r as [|d r].
      * left. change (String c u = s) in Heq. by subst s.
      * right. split; [done|].
        change (String c u = String d (r +:+ s)) in Heq.
        injection Heq as -> ->. eauto.
Qed.

Lemma run_glob g bos u :
  no_line_feed u →
  sre.run ((glob_node <$> str_list g) ++ [sre.Eol]) bos u = true
  ↔ spec_glob g u.
Proof.
  revert bos u. induction g as [|c g IH]; intros bos u Hu.
  - simpl. rewrite spec_glob_nil_iff, andb_true_r. unfold sre.at_end.
    rewrite orb_true_iff, !bool_decide_eq_true. split; [|by left].
    intros [-> | ->]; [done|]. exfalso. apply Hu. simpl. by left.
  - simpl. unfold glob_node at 1. repeat case_decide; subst.
    + rewrite spec_glob_star_iff. simpl. by apply repeat_then_dot.
    + rewrite spec_glob_any_iff. simpl. destruct u as [|d u].
      { split; [done | by intros (? & ? & ? & _)]. }
      apply no_line_feed_cons in Hu as [Hd Hu].
      rewrite andb_true_iff, bool_decide_eq_true, IH by done. split.
      * intros [_ Hg]. by exists d, u.
      * intros (d' & u' & [= -> ->] & Hg). done.
    + rewrite spec_glob_lit_iff by done. simpl. destruct u as [|d u].
      { split; [done | by intros (? & ? & _)]. }
      apply no_line_feed_cons in Hu as [Hd Hu].
      rewrite andb_true_iff, bool_decide_eq_true, IH by done. split.
      * intros [-> Hg]. by exists u.
      * intros (u' & [= -> ->] & Hg). done.
Qed.

(** ** Property resolver *)

Lemma dict_update_empty (d : props) : dict_update ∅ d = d.
Proof. unfold dict_update. apply (right_id_L ∅ (∪)). Qed.

Lemma dict_update_lookup (d other : props) k :
  dict_update d other !! k
  = match other !! k with Some v => Some v | None => d !! k end.
Proof.
  unfold dict_update. rewrite lookup_union.
  destruct (other !! k), (d !! k); done.
Qed.

Lemma parent_of_Some cp section raw :
  cp !! section = Some raw → parent_of cp section = raw !! "parent".
Proof. unfold parent_of. by intros ->. Qed.

Lemma get_browser_props_root cp section raw depth :
  cp !! section = Some raw → raw !! "parent" = None →
  __get_browser_props (S depth) cp section = Ok raw.
Proof.
  intros Hs Hp. simpl. rewrite (parent_of_Some _ _ raw), Hp by done.
  unfold items. rewrite Hs. simpl. unfold mret, result_ret.
  by rewrite dict_update_empty.
Qed.

Lemma get_browser_props_child cp section raw parent depth :
  cp !! section = Some raw → raw !! "parent" = Some parent →
  __get_browser_props (S depth) cp section
  = parent_properties ← __get_browser_props depth cp parent;
    Ok (dict_update parent_properties raw).
Proof.
  intros Hs Hp. simpl. rewrite (parent_of_Some _ _ raw), Hp by done.
  destruct (__get_browser_props depth cp parent) as [pp|e]; [|done].
  simpl. unfold items. rewrite Hs. simpl. unfold mret, result_ret.
  by rewrite dict_update_empty.
Qed.

Lemma get_browser_props_mono cp depth depth' section r :
  __get_browser_props depth cp section = Ok r → depth ≤ depth' →
  __get_browser_props depth' cp section = Ok r.
Proof.
  revert depth' section r.
  induction depth as [|depth IH]; intros depth' section r Hr Hle; [done|].
  destruct depth' as [|depth']; [lia|].
  simpl in *. destruct (parent_of cp section) as [parent|]; [|done].
  destruct (__get_browser_props depth cp parent) as [pp|e] eqn:Hpp; [|done].
  by rewrite (IH depth' parent pp) by (done || lia).
Qed.

Lemma get_browser_props_total cp n section root depth :
  ancestor cp n section = Some root →
  is_Some (cp !! root) → parent_of cp root = None →
  n < depth →
  ∃ r, __get_browser_props depth cp section = Ok r.
Proof.
  revert section depth.
  induction n as [|n IH]; intros section depth Ha [raw Hraw] Hroot Hlt.
  - simpl in Ha. injection Ha as ->. destruct depth as [|depth]; [lia|].
    exists raw. apply get_browser_props_root; [done|].
    by rewrite <- (parent_of_Some cp root raw).
  - destruct depth as [|depth]; [lia|]. simpl in Ha.
    destruct (parent_of cp section) as [parent|] eqn:Hp; [|done]. simpl in Ha.
    destruct (IH parent depth) as [pp Hpp]; [done | by eexists | done | lia |].
    unfold parent_of in Hp.
    destruct (cp !! section) as [raw'|] eqn:Hs; [|done]. simpl in Hp.
    eexists. rewrite (get_browser_props_child cp section raw' parent) by done.
    by rewrite Hpp.
Qed.

Lemma ancestor_add cp a b section :
  ancestor cp (a + b) section = ancestor cp a section ≫= ancestor cp b.
Proof.
  revert section. induction a as [|a IH]; intros section; [done|].
  simpl. destruct (parent_of cp section) as [parent|]; [apply IH | done].
Qed.

Lemma ancestor_cycle cp m k section :
  ancestor cp m section = Some section →
  ancestor cp (k * m) section = Some section.
Proof.
  intros Hm. induction k as [|k IH]; [done|].
  simpl. by rewrite ancestor_add, Hm.
Qed.

Lemma reaches_cycle_unbounded cp section :
  reaches_cycle cp section → ∀ n, is_Some (ancestor cp n section).
Proof.
  intros (a & t & Ha & m & Hm & Hcycle) n.
  assert (Hlong : is_Some (ancestor cp (n + (a + (n * m - n))) section)).
  { replace (n + (a + (n * m - n))) with (a + n * m) by nia.
    rewrite ancestor_add, Ha. simpl. rewrite ancestor_cycle by done. by eexists. }
  rewrite ancestor_add in Hlong.
  destruct (ancestor cp n section); [by eexists | by destruct Hlong].
Qed.

Lemma get_browser_props_unbounded cp depth section :
  (∀ n, is_Some (ancestor cp n section)) →
  __get_browser_props depth cp section = Raise RecursionError.
Proof.
  revert section. induction depth as [|depth IH]; intros section Hn; [done|].
  simpl. destruct (Hn 1) as [p Hp]. simpl in Hp.
  destruct (parent_of cp section) as [parent|] eqn:Hparent; [|done].
  rewrite IH; [done|].
  intros n. specialize (Hn (S n)). simpl in Hn. by rewrite Hparent in Hn.
Qed.

(** ** Dicts in insertion order *)

Section ordered_dict_facts.
Context {V : Type}.
Implicit Types (d : list (string * V)) (k : string) (v : V).

Lemma dict_get_set_eq k v d : dict_get k (dict_set k v d) = Some v.
Proof.
  induction d as [|[k' v'] d IH]; simpl.
  - by rewrite decide_True.
  - destruct (decide (k' = k)) as [->|Hne]; simpl.
    + by rewrite decide_True.
    + by rewrite decide_False.
Qed.

Lemma dict_get_set_ne k k' v d :
  k ≠ k' → dict_get k' (dict_set k v d) = dict_get k' d.
Proof.
  intros Hne. induction d as [|[k0 v0] d IH]; simpl.
  - by rewrite decide_False.
  - destruct (decide (k0 = k)) as [->|Hne0]; simpl.
    + by rewrite !decide_False.
    + by rewrite IH.
Qed.

Lemma dict_get_elem_of k v d : dict_get k d = Some v → (k, v) ∈ d.
Proof.
  induction d as [|[k' v'] d IH]; simpl; [done|].
  destruct (decide (k' = k)) as [->|Hne].
  - intros [= ->]. by left.
  - intros Hd. right. by apply IH.
Qed.

Lemma dict_get_is_Some k d : is_Some (dict_get k d) ↔ k ∈ dict_keys d.
Proof.
  unfold dict_keys. induction d as [|[k' v'] d IH]; simpl.
  - split; [by intros [? ?] | by intros ?%elem_of_nil].
  - rewrite elem_of_cons. destruct (decide (k' = k)) as [->|Hne].
    + split; [by left | by eexists].
    + rewrite IH. split; [by right | by intros [?|?]].
Qed.

Lemma dict_get_None k d : dict_get k d = None ↔ k ∉ dict_keys d.
Proof. rewrite <- dict_get_is_Some, eq_None_not_Some. done. Qed.

Lemma elem_of_dict_get k v d :
  NoDup (dict_keys d) → (k, v) ∈ d → dict_get k d = Some v.
Proof.
  unfold dict_keys. induction d as [|[k' v'] d IH]; simpl.
  - by intros _ ?%elem_of_nil.
  - intros [Hk' Hd]%NoDup_cons [Heq|Hin]%elem_of_cons.
    + injection Heq as -> ->. by rewrite decide_True.
    + rewrite decide_False; [by apply IH|].
      intros ->. apply Hk'. apply list_elem_of_fmap. by exists (k, v).
Qed.

Lemma dict_keys_set k v d :
  dict_keys (dict_set k v d)
  = if decide (k ∈ dict_keys d) then dict_keys d else dict_keys d ++ [k].
Proof.
  unfold dict_keys. induction d as [|[k' v'] d IH]; csimpl.
  - done.
  - destruct (decide (k' = k)) as [->|Hne]; csimpl.
    + rewrite decide_True; [done | by left].
    + rewrite IH. destruct (decide (k ∈ d.*1)) as [Hin|Hnin].
      * rewrite decide_True; [done | by right].
      * rewrite decide_False; [done|]. by intros [?|?]%elem_of_cons.
Qed.

Lemma dict_set_NoDup k v d :
  NoDup (dict_keys d) → NoDup (dict_keys (dict_set k v d)).
Proof.
  intros Hd. rewrite dict_keys_set. case_decide; [done|].
  apply NoDup_app. split_and!; [done | | apply NoDup_singleton].
  intros x Hx ->%list_elem_of_singleton. done.
Qed.

Lemma dict_set_not_nil k v d : dict_set k v d ≠ [].
Proof. destruct d as [|[k' v'] d]; simpl; [done|]. by case_decide. Qed.

Lemma dict_set_length k v d : length d ≤ length (dict_set k v d).
Proof.
  induction d as [|[k' v'] d IH]; simpl; [lia|]. case_decide; simpl; lia.
Qed.
End ordered_dict_facts.

(** ** The leaves of a file *)

Lemma elem_of_sections cp section : section ∈ sections cp ↔ is_Some (cp !! section).
Proof.
  unfold sections. rewrite list_elem_of_fmap. split.
  - intros ([k v] & -> & Hin). apply elem_of_map_to_list in Hin. by eexists.
  - intros [v Hv]. exists (section, v). split; [done|].
    by apply elem_of_map_to_list.
Qed.

Lemma child_sections_fold cp (X : gset string) l s :
  s ∈ foldl (λ (child_sections : gset string) section,
               match parent_of cp section with
               | Some parent =>
                   if decide (parent ∈ child_sections)
                   then child_sections ∖ {[parent]} else child_sections
               | None => child_sections
               end) X l
  ↔ s ∈ X ∧ ∀ t, t ∈ l → parent_of cp t ≠ Some s.
Proof.
  revert X. induction l as [|t l IH]; intros X; simpl.
  - split; [intros ?; split; [done|] | by intros [? _]].
    by intros t ?%elem_of_nil.
  - rewrite IH. setoid_rewrite elem_of_cons.
    destruct (parent_of cp t) as [parent|] eqn:Hp.
    + destruct (decide (parent ∈ X)) as [Hin|Hnin].
      * rewrite elem_of_difference, not_elem_of_singleton. split.
        -- intros [[HX Hne] Hl]. split; [done|].
           intros t' [->|Ht']; [congruence | by apply Hl].
        -- intros [HX Hl]. split; [split; [done|] | by intros t' ?; apply Hl; right].
           intros ->. by apply (Hl t); [left|].
      * split.
        -- intros [HX Hl]. split; [done|].
           intros t' [->|Ht']; [|by apply Hl]. rewrite Hp. by intros [= ->].
        -- intros [HX Hl]. split; [done|]. intros t' ?. apply Hl. by right.
    + split.
      * intros [HX Hl]. split; [done|]. intros t' [->|Ht']; [by rewrite Hp | by apply Hl].
      * intros [HX Hl]. split; [done|]. intros t' ?. apply Hl. by right.
Qed.

(** A leaf is a section that no section names as its parent. *)
Lemma elem_of_child_sections cp s :
  s ∈ child_sections cp
  ↔ is_Some (cp !! s) ∧ ∀ t, parent_of cp t ≠ Some s.
Proof.
  unfold child_sections. rewrite child_sections_fold, elem_of_list_to_set.
  rewrite elem_of_sections. split; intros [Hs Hp]; (split; [done|]).
  - intros t Ht. apply (Hp t); [|done]. apply elem_of_sections.
    unfold parent_of in Ht. destruct (cp !! t); [by eexists | done].
  - intros t _. apply Hp.
Qed.

(** ** The scan *)

Section scan_facts.
Context `{PyRuntime}.
Implicit Types (regexps : list (string * regex)).

Lemma scan_fold regexps ua acc :
  let r := foldl (scan_step ua) acc regexps in
  (r = acc ∨ ∃ re, (r, re) ∈ regexps ∧ re_match re ua = true
                   ∧ String.length acc < String.length r)
  ∧ String.length acc ≤ String.length r
  ∧ ∀ s re, (s, re) ∈ regexps → re_match re ua = true →
      String.length s ≤ String.length r.
Proof.
  revert acc. induction regexps as [|[s0 re0] regexps IH]; intros acc;
    cbn [foldl].
  - split_and!; [by left | done | by intros s re ?%elem_of_nil].
  - destruct (IH (scan_step ua acc (s0, re0))) as (Hsel & Hle & Hmax).
    assert (Hstep : String.length acc
                    ≤ String.length (scan_step ua acc (s0, re0))).
    { simpl. destruct (re_match re0 ua); simpl; [|done].
      case_bool_decide; lia. }
    split_and!.
    + destruct Hsel as [Heq | (re & Hin & Hm & Hlt)].
      * rewrite Heq. unfold scan_step.
        destruct (re_match re0 ua) eqn:Hm0; simpl; [|by left].
        case_bool_decide; [|by left].
        right. exists re0. split_and!; [by left | done | done].
      * right. exists re. split_and!; [by right | done | lia].
    + lia.
    + intros s re [[= -> ->]|Hin]%elem_of_cons Hm; [|by eapply Hmax].
      etrans; [|apply Hle]. simpl. rewrite Hm. simpl.
      case_bool_decide; lia.
Qed.

(** The scan selects a matching entry of greatest length, or nothing when
    no entry with a non-empty identifier matches. *)
Lemma scan_spec regexps ua :
  let sel := scan regexps ua in
  (sel = "" ∨ ∃ re, (sel, re) ∈ regexps ∧ re_match re ua = true ∧ sel ≠ "")
  ∧ ∀ s re, (s, re) ∈ regexps → re_match re ua = true →
      String.length s ≤ String.length sel.
Proof.
  destruct (scan_fold regexps ua "") as (Hsel & _ & Hmax).
  split; [|done]. destruct Hsel as [?|(re & Hin & Hm & Hlt)]; [by left|].
  right. exists re. split_and!; [done | done |].
  intros Heq. unfold scan in Heq. rewrite Heq in Hlt. simpl in Hlt. lia.
Qed.

Lemma scan_no_match regexps ua :
  (∀ s re, (s, re) ∈ regexps → re_match re ua = false) →
  scan regexps ua = "".
Proof.
  intros Hno. destruct (scan_spec regexps ua) as [[?|(re & Hin & Hm & _)] _];
    [done|]. by rewrite (Hno _ _ Hin) in Hm.
Qed.
End scan_facts.

(** ** The loop of load *)

Section load_facts.
Context `{PyRuntime}.
Implicit Types (self : UserAgentParser) (cp : ConfigParser).

Lemma set_properties_inv cp leaves section properties self :
  section ∈ leaves →
  __get_browser_props recursion_limit cp section = Ok properties →
  props_ok cp self → regexps_ok self → keys_in leaves self →
  props_ok cp (set_properties section properties self)
  ∧ regexps_ok (set_properties section properties self)
  ∧ keys_in leaves (set_properties section properties self).
Proof.
  intros Hleaf Hres Hprops Hregs [Hkp Hkr]. split_and!.
  - intros s l. simpl. destruct (decide (section = s)) as [->|Hne].
    + rewrite dict_get_set_eq. intros [= <-]. exists properties.
      split; [|done]. by rewrite lookup_app_r, Nat.sub_diag.
    + rewrite dict_get_set_ne by done. intros Hl.
      destruct (Hprops s l Hl) as (d & Hd & Hr). exists d. split; [|done].
      by apply lookup_app_l_Some.
  - intros s re Hre. destruct (Hregs s re Hre) as [Hc Hp]. split; [done|].
    simpl. destruct (decide (section = s)) as [->|Hne].
    + rewrite dict_get_set_eq. by eexists.
    + by rewrite dict_get_set_ne.
  - split; [|done]. intros s. simpl. rewrite dict_keys_set.
    case_decide; [apply Hkp|].
    intros [?| ->%list_elem_of_singleton]%elem_of_app; [by apply Hkp | done].
Qed.

Lemma set_regexp_inv cp leaves section user_agent_re self :
  section ∈ leaves →
  re_compile (ini_to_regex section) = Some user_agent_re →
  is_Some (dict_get section (user_agent_properties self)) →
  props_ok cp self → regexps_ok self → keys_in leaves self →
  props_ok cp (set_regexp section user_agent_re self)
  ∧ regexps_ok (set_regexp section user_agent_re self)
  ∧ keys_in leaves (set_regexp section user_agent_re self).
Proof.
  intros Hleaf Hc Hp Hprops Hregs [Hkp Hkr]. split_and!; [done| |].
  - intros s re. simpl. destruct (decide (section = s)) as [->|Hne].
    + rewrite dict_get_set_eq. by intros [= <-].
    + rewrite dict_get_set_ne by done. apply Hregs.
  - split; [done|]. intros s. simpl. rewrite dict_keys_set.
    case_decide; [apply Hkr|].
    intros [?| ->%list_elem_of_singleton]%elem_of_app; [by apply Hkr | done].
Qed.

Lemma load_sections_inv cp leaves secs self self' o :
  (∀ s, s ∈ secs → s ∈ leaves) →
  load_sections cp secs self = (self', o) →
  props_ok cp self → regexps_ok self → keys_in leaves self →
  NoDup (dict_keys (user_agent_regexps self)) →
  props_ok cp self' ∧ regexps_ok self' ∧ keys_in leaves self'
  ∧ NoDup (dict_keys (user_agent_regexps self'))
  ∧ __match_cache self' = __match_cache self.
Proof.
  revert self. induction secs as [|s secs IH]; intros self Hsecs Hload.
  - injection Hload as <- <-. by intros.
  - intros Hprops Hregs Hkeys Hnodup. simpl in Hload.
    assert (Hs : s ∈ leaves) by (apply Hsecs; by left).
    assert (Hsecs' : ∀ s', s' ∈ secs → s' ∈ leaves)
      by (intros s' ?; apply Hsecs; by right).
    destruct (__get_browser_props recursion_limit cp s) as [d|e] eqn:Hres;
      [|by apply (IH self)].
    destruct (set_properties_inv cp leaves s d self) as (Hp1 & Hr1 & Hk1);
      [done..|].
    destruct (re_compile (ini_to_regex s)) as [re|] eqn:Hc.
    + destruct (set_regexp_inv cp leaves s re (set_properties s d self))
        as (Hp2 & Hr2 & Hk2); [done | done | | done.. |].
      { simpl. rewrite dict_get_set_eq. by eexists. }
      destruct (IH _ Hsecs' Hload) as (? & ? & ? & ? & ->); [done..| |done].
      simpl. by apply dict_set_NoDup.
    + injection Hload as <- <-. done.
Qed.

Lemma load_sections_complete cp secs self self' :
  load_sections cp secs self = (self', None) →
  (∀ s, is_Some (dict_get s (user_agent_regexps self)) →
        is_Some (dict_get s (user_agent_regexps self')))
  ∧ ∀ s properties, s ∈ secs →
      __get_browser_props recursion_limit cp s = Ok properties →
      is_Some (dict_get s (user_agent_regexps self')).
Proof.
  revert self. induction secs as [|s0 secs IH]; intros self Hload.
  - injection Hload as <-. split; [done | by intros s d ?%elem_of_nil].
  - simpl in Hload.
    destruct (__get_browser_props recursion_limit cp s0) as [d|e] eqn:Hres.
    + destruct (re_compile (ini_to_regex s0)) as [re|] eqn:Hc; [|done].
      destruct (IH _ Hload) as [Hkeep Hnew].
      assert (Hstep : ∀ s, s = s0 ∨ is_Some (dict_get s (user_agent_regexps self)) →
                is_Some (dict_get s (user_agent_regexps self'))).
      { intros s Hs. apply Hkeep. simpl.
        destruct (decide (s0 = s)) as [->|Hne].
        - rewrite dict_get_set_eq. by eexists.
        - rewrite dict_get_set_ne by done. by destruct Hs. }
      split; [by intros s ?; apply Hstep; right|].
      intros s d' [->|Hin]%elem_of_cons Hd'; [by apply Hstep; left|].
      by eapply Hnew.
    + destruct (IH _ Hload) as [Hkeep Hnew]. split; [done|].
      intros s d' [->|Hin]%elem_of_cons Hd'; [congruence | by eapply Hnew].
Qed.

(** The loop only adds: an entry of the pattern table stays, a stored
    dict object stays where it is, and the entries of sections outside
    the loop stay as they are. *)
Lemma load_sections_keeps cp secs self self' o :
  load_sections cp secs self = (self', o) →
  regexps_ok self →
  (∀ s re, dict_get s (user_agent_regexps self) = Some re →
           dict_get s (user_agent_regexps self') = Some re)
  ∧ (∀ l d, heap self !! l = Some d → heap self' !! l = Some d)
  ∧ (∀ s, s ∉ secs →
       dict_get s (user_agent_properties self')
       = dict_get s (user_agent_properties self)
       ∧ dict_get s (user_agent_regexps self')
         = dict_get s (user_agent_regexps self))
  ∧ length (user_agent_regexps self) ≤ length (user_agent_regexps self').
Proof.
  revert self. induction secs as [|s0 secs IH]; intros self Hload Hregs.
  - injection Hload as <- <-. done.
  - simpl in Hload.
    destruct (__get_browser_props recursion_limit cp s0) as [d0|e] eqn:Hres.
    + assert (Hheap : ∀ l d, heap self !! l = Some d →
                heap (set_properties s0 d0 self) !! l = Some d).
      { intros l d Hl. simpl. by apply lookup_app_l_Some. }
      assert (Hprops : ∀ s, s ≠ s0 →
                dict_get s (user_agent_properties (set_properties s0 d0 self))
                = dict_get s (user_agent_properties self)).
      { intros s Hne. simpl. by rewrite dict_get_set_ne. }
      destruct (re_compile (ini_to_regex s0)) as [re0|] eqn:Hc.
      * destruct (IH _ Hload) as (Hkeep & Hh & Hout & Hlen).
        { intros s re. simpl. destruct (decide (s0 = s)) as [->|Hne].
          - rewrite !dict_get_set_eq. by intros [= <-].
          - rewrite !dict_get_set_ne by done. apply Hregs. }
        split_and!.
        -- intros s re Hre. apply Hkeep. simpl.
           destruct (decide (s0 = s)) as [->|Hne].
           ++ rewrite dict_get_set_eq. destruct (Hregs _ _ Hre). congruence.
           ++ by rewrite dict_get_set_ne.
        -- intros l d Hl. by apply Hh, Hheap.
        -- intros s [Hne Hnin]%not_elem_of_cons.
           destruct (Hout s Hnin) as [-> ->]. simpl.
           by rewrite !dict_get_set_ne.
        -- etrans; [|apply Hlen]. simpl. apply dict_set_length.
      * injection Hload as <- <-. split_and!; [done | done | | done].
        intros s [Hne Hnin]%not_elem_of_cons. split; [by apply Hprops | done].
    + destruct (IH _ Hload Hregs) as (Hkeep & Hh & Hout & Hlen).
      split_and!; [done | done | | done].
      intros s [Hne Hnin]%not_elem_of_cons. by apply Hout.
Qed.

(** A loop in which no section resolves changes nothing. *)
Lemma load_sections_skip_all cp secs self :
  (∀ s, s ∈ secs → ∃ e, __get_browser_props recursion_limit cp s = Raise e) →
  load_sections cp secs self = (self, None).
Proof.
  induction secs as [|s secs IH]; intros Hfail; [done|]. simpl.
  destruct (Hfail s) as [e ->]; [by left|].
  apply IH. intros s' ?. apply Hfail. by right.
Qed.

(** A loop that ends without an exception and with an empty pattern table
    has changed nothing. *)
Lemma load_sections_nil cp secs self self' :
  load_sections cp secs self = (self', None) →
  user_agent_regexps self' = [] →
  self' = self
  ∧ ∀ s, s ∈ secs → ∃ e, __get_browser_props recursion_limit cp s = Raise e.
Proof.
  revert self. induction secs as [|s secs IH]; intros self Hload Hnil.
  - injection Hload as <-. split; [done | by intros s ?%elem_of_nil].
  - simpl in Hload.
    destruct (__get_browser_props recursion_limit cp s) as [d|e] eqn:Hres.
    + destruct (re_compile (ini_to_regex s)) as [re|] eqn:Hc; [|done].
      exfalso. destruct (IH _ Hload Hnil) as [-> _]. simpl in Hnil.
      by apply dict_set_not_nil in Hnil.
    + destruct (IH _ Hload Hnil) as [-> Hall]. split; [done|].
      intros s' [->|Hin]%elem_of_cons; [by eexists | by apply Hall].
Qed.

(** No exception leaves the loop when the patterns compile. *)
Lemma load_sections_no_exception cp secs self :
  (∀ s, s ∈ secs → is_Some (re_compile (ini_to_regex s))) →
  (load_sections cp secs self).2 = None.
Proof.
  revert self. induction secs as [|s secs IH]; intros self Hc; [done|].
  simpl. assert (Hc' : ∀ s', s' ∈ secs → is_Some (re_compile (ini_to_regex s')))
    by (intros s' ?; apply Hc; by right).
  destruct (__get_browser_props recursion_limit cp s); [|by apply IH].
  destruct (Hc s) as [re ->]; [by left|]. by apply IH.
Qed.

(** A section that does not resolve is passed over. *)
Lemma load_sections_skip cp section e rest self :
  __get_browser_props recursion_limit cp section = Raise e →
  load_sections cp (section :: rest) self = load_sections cp rest self.
Proof. intros Hres. simpl. by rewrite Hres. Qed.

Lemma elem_of_set_iter (X : gset string) s : s ∈ set_iter X ↔ s ∈ X.
Proof. by rewrite set_iter_perm, elem_of_elements. Qed.
End load_facts.

(** ** __match and query *)

Section query_facts.
Context `{PyRuntime}.
Implicit Types (self : UserAgentParser) (cp : ConfigParser).

Lemma match_hit self ua cached :
  __match_cache self !! ua = Some cached → __match self ua = (self, cached).
Proof. intros Hc. unfold __match. by rewrite Hc. Qed.

Lemma match_catalog self ua :
  heap (__match self ua).1 = heap self
  ∧ user_agent_properties (__match self ua).1 = user_agent_properties self
  ∧ user_agent_regexps (__match self ua).1 = user_agent_regexps self.
Proof. unfold __match. by destruct (__match_cache self !! ua). Qed.

Lemma match_scan self ua :
  cache_ok self →
  (__match self ua).2 = scan (user_agent_regexps self) ua
  ∧ __match_cache (__match self ua).1 !! ua
    = Some (scan (user_agent_regexps self) ua)
  ∧ cache_ok (__match self ua).1.
Proof.
  intros Hcache. unfold __match.
  destruct (__match_cache self !! ua) as [cached|] eqn:Hc; simpl.
  - rewrite Hc, <- (Hcache ua cached Hc). by split_and!.
  - rewrite lookup_insert_eq. split_and!; [done..|].
    intros ua' cached'. simpl. rewrite lookup_insert.
    case_decide as Hua; [subst ua'; by intros [= <-] | apply Hcache].
Qed.

Lemma match_inv cp self ua :
  catalog_inv cp self → catalog_inv cp (__match self ua).1.
Proof.
  intros [Hp Hr Hk Hn Hc Hcomp].
  destruct (match_catalog self ua) as (Hheap & Hprops & Hregs).
  split.
  - intros s l. rewrite Hprops, Hheap. apply Hp.
  - intros s re. rewrite Hprops, Hregs. apply Hr.
  - unfold keys_in. by rewrite Hprops, Hregs.
  - by rewrite Hregs.
  - by apply match_scan.
  - intros s d. rewrite Hregs. apply Hcomp.
Qed.

(** [query] changes the parser as [__match] does, or not at all. *)
Lemma query_state self ua safe :
  (query self ua safe).1 = self
  ∨ (query self ua safe).1 = (__match self ua).1.
Proof.
  unfold query. destruct (__check_init self); [|by left].
  destruct (__match self ua) as [self' section]. simpl.
  repeat case_decide; repeat case_match; by right.
Qed.

Lemma query_eq self ua safe :
  query self ua safe
  = match __check_init self with
    | Raise e => (self, Raise e)
    | Ok _ => ((__match self ua).1,
               answer (user_agent_properties self) (__match self ua).2 ua safe)
    end.
Proof.
  unfold query, answer. destruct (__check_init self); [|done].
  destruct (match_catalog self ua) as (_ & <- & _).
  destruct (__match self ua) as [self' section]. simpl.
  repeat case_decide; repeat case_match; done.
Qed.

Lemma check_init_ok self :
  user_agent_regexps self ≠ [] → __check_init self = Ok ().
Proof. unfold __check_init. by destruct (user_agent_regexps self). Qed.

Lemma check_init_raise self :
  user_agent_regexps self = [] →
  __check_init self = Raise (Exception
    "Browser properties not initialized. Must call load(..) method first.").
Proof. unfold __check_init. by intros ->. Qed.

Lemma init_inv cp : props_ok cp init ∧ regexps_ok init
  ∧ keys_in (child_sections cp) init
  ∧ NoDup (dict_keys (user_agent_regexps init)).
Proof.
  split_and!; [done | done | | apply NoDup_nil_2].
  split; by intros s ?%elem_of_nil.
Qed.

Lemma load_inv cp self :
  load cp init = (self, None) → catalog_inv (without_meta cp) self.
Proof.
  unfold load. fold (without_meta cp). intros Hload.
  destruct (init_inv (without_meta cp)) as (Hp & Hr & Hk & Hn).
  destruct (load_sections_inv _ (child_sections (without_meta cp)) _ _ _ _
              (λ s, proj1 (elem_of_set_iter _ s)) Hload Hp Hr Hk Hn)
    as (Hp' & Hr' & Hk' & Hn' & Hc').
  destruct (load_sections_complete _ _ _ _ Hload) as [_ Hcomp].
  split; [done.. | |].
  - intros ua cached. by rewrite Hc'.
  - intros s d Hs Hd. eapply Hcomp; [by apply elem_of_set_iter | done].
Qed.

Lemma loaded_inv cp self :
  loaded cp self → catalog_inv (without_meta cp) self.
Proof.
  induction 1 as [self Hload | self ua safe _ IH]; [by apply load_inv|].
  destruct (query_state self ua safe) as [-> | ->]; [done|].
  by apply match_inv.
Qed.
End query_facts.

(** * The claims *)

(** C9: on a parser that was constructed and on which load was never
    called, query fails with the "not initialized" exception for every
    User-Agent string and for both values of the [safe] (lenient) flag, and
    leaves the parser as it is. *)
Theorem query_before_load `{PyRuntime} (user_agent_string : string) (safe : bool) :
  query init user_agent_string safe
  = (init, Raise (Exception
       "Browser properties not initialized. Must call load(..) method first.")).
Proof. reflexivity. Qed.

(** A load in which no leaf section resolves, in particular one of a file
    without leaf sections, ends without an exception and changes nothing. *)
Lemma load_nothing_resolves `{PyRuntime} (cp : ConfigParser) (self : UserAgentParser) :
  (∀ section, section ∈ child_sections (without_meta cp) →
     ∃ e, __get_browser_props recursion_limit (without_meta cp) section
          = Raise e) →
  load cp self = (self, None).
Proof.
  intros Hfail. unfold load. fold (without_meta cp).
  apply load_sections_skip_all. intros s Hs%elem_of_set_iter. by apply Hfail.
Qed.

(** C10: when the load of a new parser ends without an exception and has
    put no entry into the catalog (every leaf section failed to resolve, or
    there is none), the parser is what it was before the load: every query,
    for any string and either flag, fails with the "not initialized"
    exception, and so does get_all_user_agents. *)
Theorem empty_load_uninitialized `{PyRuntime} (cp : ConfigParser)
    (self : UserAgentParser) :
  load cp init = (self, None) →
  user_agent_regexps self = [] →
  self = init
  ∧ (∀ user_agent_string safe,
       query self user_agent_string safe
       = (self, Raise (Exception
            "Browser properties not initialized. Must call load(..) method first.")))
  ∧ get_all_user_agents self
    = Raise (Exception
        "Browser properties not initialized. Must call load(..) method first.")
  ∧ ∀ section, section ∈ child_sections (without_meta cp) →
      ∃ e, __get_browser_props recursion_limit (without_meta cp) section
           = Raise e.
Proof.
  intros Hload Hnil. unfold load in Hload. fold (without_meta cp) in Hload.
  destruct (load_sections_nil _ _ _ _ Hload Hnil) as [-> Hall].
  split_and!; [done | by intros | done |].
  intros s Hs. by apply Hall, elem_of_set_iter.
Qed.

Lemma empty_load_uninitialized_witness :
  load db_orphan init = (init, None)
  ∧ (∀ user_agent_string safe,
       query init user_agent_string safe
       = (init, Raise (Exception
            "Browser properties not initialized. Must call load(..) method first.")))
  ∧ get_all_user_agents init
    = Raise (Exception
        "Browser properties not initialized. Must call load(..) method first.").
Proof.
  assert (Hload : load db_orphan init = (init, None)) by compute_done.
  split; [exact Hload|].
  destruct (empty_load_uninitialized db_orphan init Hload eq_refl)
    as (_ & Hquery & Hall & _).
  by split.
Defined.

(** C6: on a loaded parser with a non-empty catalog, for a User-Agent string
    that no pattern of the catalog matches, query with [safe] set returns a
    new empty dict, and query without it raises the exception whose message
    is "Unknown user agent: [" followed by the string and "]". *)
Theorem query_unknown `{PyRuntime} (cp : ConfigParser) (self : UserAgentParser)
    (user_agent_string : string) :
  loaded cp self →
  user_agent_regexps self ≠ [] →
  (∀ section user_agent_re,
     (section, user_agent_re) ∈ user_agent_regexps self →
     re_match user_agent_re user_agent_string = false) →
  (query self user_agent_string true).2 = Ok (Fresh ∅)
  ∧ (query self user_agent_string false).2
    = Raise (Exception ("Unknown user agent: [" +:+ user_agent_string +:+ "]")).
Proof.
  intros Hloaded Hne Hno.
  pose proof (loaded_inv _ _ Hloaded) as Hinv.
  destruct (match_scan self user_agent_string (inv_cache _ _ Hinv)) as (Hsel & _).
  rewrite (scan_no_match _ _ Hno) in Hsel.
  unfold query. rewrite check_init_ok by done.
  destruct (__match self user_agent_string) as [self' section].
  simpl in Hsel. subst section. by rewrite decide_True.
Qed.

Lemma no_match_forallb `{PyRuntime} (regexps : list (string * regex)) ua :
  forallb (λ entry, negb (re_match entry.2 ua)) regexps = true →
  ∀ section user_agent_re,
    (section, user_agent_re) ∈ regexps → re_match user_agent_re ua = false.
Proof.
  intros Hall s re Hin. rewrite forallb_forall in Hall.
  apply list_elem_of_In, Hall in Hin. by apply negb_true_iff in Hin.
Qed.

Lemma query_unknown_witness :
  (query (load db_mozilla init).1 "totally-unknown-agent" true).2 = Ok (Fresh ∅)
  ∧ (query (load db_mozilla init).1 "totally-unknown-agent" false).2
    = Raise (Exception "Unknown user agent: [totally-unknown-agent]").
Proof.
  apply (query_unknown db_mozilla).
  - apply loaded_load. compute_done.
  - compute_done.
  - apply no_match_forallb. vm_compute. reflexivity.
Defined.

(** C8: on a loaded parser, a query leaves the parser in a state in which
    the same query gives the same result and changes nothing more.  After
    the first call of __match the cache holds, for the string, what the
    scan of the catalog selects (the empty string when nothing matches), and
    the second call returns that entry whatever the pattern table holds: it
    does not scan. *)
Theorem query_twice `{PyRuntime} (cp : ConfigParser) (self : UserAgentParser)
    (user_agent_string : string) (safe : bool) :
  loaded cp self →
  let self1 := (query self user_agent_string safe).1 in
  query self1 user_agent_string safe
  = (self1, (query self user_agent_string safe).2)
  ∧ let self2 := (__match self user_agent_string).1 in
    let selected := scan (user_agent_regexps self) user_agent_string in
    (__match self user_agent_string).2 = selected
    ∧ __match_cache self2 !! user_agent_string = Some selected
    ∧ ∀ regexps,
        __match (with_regexps regexps self2) user_agent_string
        = (with_regexps regexps self2, selected).
Proof.
  intros Hloaded. pose proof (loaded_inv _ _ Hloaded) as Hinv.
  destruct (match_scan self user_agent_string (inv_cache _ _ Hinv))
    as (Hsel & Hcached & _).
  destruct (match_catalog self user_agent_string) as (Hheap & Hprops & Hregs).
  pose proof (match_hit _ _ _ Hcached) as Hhit.
  split.
  - rewrite (query_eq self). unfold __check_init.
    destruct (user_agent_regexps self) as [|entry regexps] eqn:Hne.
    { simpl. by rewrite query_eq, check_init_raise. }
    simpl. rewrite query_eq. unfold __check_init. rewrite Hregs, Hhit, Hprops.
    simpl. by rewrite Hsel.
  - simpl. split_and!; [done | done |].
    intros regexps. by apply match_hit.
Qed.

Lemma query_twice_witness :
  let self := mozilla_parser in
  let user_agent_string := "Mozilla/5.0 Firefox/1.0" in
  let self1 := (query self user_agent_string false).1 in
  query self1 user_agent_string false
  = (self1, (query self user_agent_string false).2)
  ∧ let self2 := (__match self user_agent_string).1 in
    let selected := scan (user_agent_regexps self) user_agent_string in
    (__match self user_agent_string).2 = selected
    ∧ __match_cache self2 !! user_agent_string = Some selected
    ∧ ∀ regexps,
        __match (with_regexps regexps self2) user_agent_string
        = (with_regexps regexps self2, selected).
Proof.
  apply (query_twice db_mozilla mozilla_parser "Mozilla/5.0 Firefox/1.0" false).
  apply loaded_load. compute_done.
Defined.

(** The catalog of a loaded parser holds the leaf sections of the file that
    resolve, each with the compiled pattern of its identifier. *)
Lemma catalog_entries `{PyRuntime} (cp : ConfigParser) (self : UserAgentParser)
    (section : string) (user_agent_re : regex) :
  loaded cp self →
  (section, user_agent_re) ∈ user_agent_regexps self
  ↔ section ∈ child_sections (without_meta cp)
    ∧ (∃ properties,
         __get_browser_props recursion_limit (without_meta cp) section
         = Ok properties)
    ∧ re_compile (ini_to_regex section) = Some user_agent_re.
Proof.
  intros Hloaded. destruct (loaded_inv _ _ Hloaded) as [Hp Hr Hk Hn Hc Hcomp].
  split.
  - intros Hin. pose proof (elem_of_dict_get _ _ _ Hn Hin) as Hget.
    destruct (Hr _ _ Hget) as [Hcompile [l Hl]].
    destruct (Hp _ _ Hl) as (d & _ & Hd).
    split_and!; [|by exists d | done].
    apply (proj2 Hk), dict_get_is_Some. by eexists.
  - intros (Hleaf & [d Hd] & Hcompile).
    destruct (Hcomp _ _ Hleaf Hd) as [re Hre].
    destruct (Hr _ _ Hre) as [Hcompile' _].
    apply dict_get_elem_of. congruence.
Qed.

(** C1: on a loaded parser, when the pattern of some leaf of the catalog
    matches the User-Agent string, __match selects a leaf of the catalog
    whose pattern matches and whose identifier is at least as long as that
    of every leaf whose pattern matches, and query returns the dict stored
    for the selected leaf, which holds its resolved properties.  (The
    identifier of a section of a parsed file is not empty.)  With the leaves
    "Mozilla*" and "Mozilla/5.0*Firefox*", which both match
    "Mozilla/5.0 Firefox/1.0", the second is selected. *)
Theorem match_most_specific `{PyRuntime} (cp : ConfigParser)
    (self : UserAgentParser) (user_agent_string : string)
    (section : string) (user_agent_re : regex) :
  loaded cp self →
  (section, user_agent_re) ∈ user_agent_regexps self →
  section ≠ "" →
  re_match user_agent_re user_agent_string = true →
  (∃ selected selected_re l properties,
     (__match self user_agent_string).2 = selected
     ∧ (selected, selected_re) ∈ user_agent_regexps self
     ∧ re_match selected_re user_agent_string = true
     ∧ (∀ s re, (s, re) ∈ user_agent_regexps self →
          re_match re user_agent_string = true →
          String.length s ≤ String.length selected)
     ∧ (∀ safe, (query self user_agent_string safe).2 = Ok (Stored l)
                ∧ heap (query self user_agent_string safe).1 !! l
                  = Some properties)
     ∧ dict_get selected (user_agent_properties self) = Some l
     ∧ __get_browser_props recursion_limit (without_meta cp) selected
       = Ok properties)
  ∧ (∃ re1 re2 l,
       dict_get "Mozilla*" (user_agent_regexps mozilla_parser) = Some re1
       ∧ dict_get "Mozilla/5.0*Firefox*" (user_agent_regexps mozilla_parser)
         = Some re2
       ∧ re_match re1 "Mozilla/5.0 Firefox/1.0" = true
       ∧ re_match re2 "Mozilla/5.0 Firefox/1.0" = true
       ∧ (__match mozilla_parser "Mozilla/5.0 Firefox/1.0").2
         = "Mozilla/5.0*Firefox*"
       ∧ (query mozilla_parser "Mozilla/5.0 Firefox/1.0" false).2
         = Ok (Stored l)
       ∧ heap (query mozilla_parser "Mozilla/5.0 Firefox/1.0" false).1 !! l
         = Some firefox_properties).
Proof.
  intros Hloaded Hin Hne Hmatch. split.
  - destruct (loaded_inv _ _ Hloaded) as [Hp Hr Hk Hn Hc Hcomp].
    destruct (match_scan self user_agent_string Hc) as (Hsel & _ & _).
    destruct (match_catalog self user_agent_string) as (Hheap & _ & _).
    destruct (scan_spec (user_agent_regexps self) user_agent_string)
      as [Hsome Hmax]. simpl in Hsome, Hmax.
    destruct Hsome as [Hnone | (re & Hre & Hm & Hnonempty)].
    { exfalso. specialize (Hmax _ _ Hin Hmatch). rewrite Hnone in Hmax.
      destruct section; [done | simpl in Hmax; lia]. }
    pose proof (elem_of_dict_get _ _ _ Hn Hre) as Hget.
    destruct (Hr _ _ Hget) as [_ [l Hl]].
    destruct (Hp _ _ Hl) as (d & Hd & Hres).
    exists (scan (user_agent_regexps self) user_agent_string), re, l, d.
    split_and!; [done.. | | done | done].
    intros safe. rewrite query_eq, check_init_ok.
    + simpl. rewrite Hheap, Hsel. split; [|done].
      unfold answer. by rewrite decide_False, Hl.
    + intros Hnil. rewrite Hnil in Hin. by apply elem_of_nil in Hin.
  - eexists _, _, 0. split_and!.
    1,2: vm_compute; reflexivity.
    all: compute_done.
Qed.

Lemma match_most_specific_witness :
  ∃ selected selected_re l properties,
    (__match mozilla_parser "Mozilla/5.0 Firefox/1.0").2 = selected
    ∧ (selected, selected_re) ∈ user_agent_regexps mozilla_parser
    ∧ re_match selected_re "Mozilla/5.0 Firefox/1.0" = true
    ∧ (∀ s re, (s, re) ∈ user_agent_regexps mozilla_parser →
         re_match re "Mozilla/5.0 Firefox/1.0" = true →
         String.length s ≤ String.length selected)
    ∧ (∀ safe,
         (query mozilla_parser "Mozilla/5.0 Firefox/1.0" safe).2 = Ok (Stored l)
         ∧ heap (query mozilla_parser "Mozilla/5.0 Firefox/1.0" safe).1 !! l
           = Some properties)
    ∧ dict_get selected (user_agent_properties mozilla_parser) = Some l
    ∧ __get_browser_props recursion_limit (without_meta db_mozilla) selected
      = Ok properties.
Proof.
  eapply (match_most_specific db_mozilla mozilla_parser
            "Mozilla/5.0 Firefox/1.0" "Mozilla*").
  - apply loaded_load. compute_done.
  - apply dict_get_elem_of. vm_compute. reflexivity.
  - discriminate.
  - vm_compute. reflexivity.
Defined.

(** C2: resolving a section of the file that has no "parent" option gives
    exactly its raw options; resolving one that has a parent gives the
    resolution of the parent overlaid with the raw options of the section,
    so that a key of the section keeps the value the section gives it and
    any other key has the value of the parent's resolution; and a section
    whose parent chain ends, after [n] steps, in a section without parent
    resolves within every recursion limit above [n]. *)
Theorem resolve_overlay (cp : ConfigParser) (section : string) (raw : props) :
  cp !! section = Some raw →
  (raw !! "parent" = None →
     ∀ depth, __get_browser_props (S depth) cp section = Ok raw)
  ∧ (∀ parent, raw !! "parent" = Some parent →
       (∀ depth,
          __get_browser_props (S depth) cp section
          = parent_properties ← __get_browser_props depth cp parent;
            Ok (dict_update parent_properties raw))
       ∧ ∀ parent_properties key,
           dict_update parent_properties raw !! key
           = match raw !! key with
             | Some val => Some val
             | None => parent_properties !! key
             end)
  ∧ (∀ n root depth,
       ancestor cp n section = Some root →
       is_Some (cp !! root) → parent_of cp root = None →
       n < depth →
       ∃ properties, __get_browser_props depth cp section = Ok properties).
Proof.
  intros Hs. split_and!.
  - intros Hroot depth. by apply get_browser_props_root.
  - intros parent Hparent. split.
    + intros depth. by apply get_browser_props_child.
    + intros pp key. apply dict_update_lookup.
  - intros n root depth. apply get_browser_props_total.
Qed.

Lemma resolve_overlay_witness :
  let raw : props := {[ "parent" := "Firefox"; "version" := "1.0" ]} in
  (raw !! "parent" = None →
     ∀ depth, __get_browser_props (S depth) db_mozilla "Mozilla/5.0*Firefox*"
              = Ok raw)
  ∧ (∀ parent, raw !! "parent" = Some parent →
       (∀ depth,
          __get_browser_props (S depth) db_mozilla "Mozilla/5.0*Firefox*"
          = parent_properties ← __get_browser_props depth db_mozilla parent;
            Ok (dict_update parent_properties raw))
       ∧ ∀ parent_properties key,
           dict_update parent_properties raw !! key
           = match raw !! key with
             | Some val => Some val
             | None => parent_properties !! key
             end)
  ∧ (∀ n root depth,
       ancestor db_mozilla n "Mozilla/5.0*Firefox*" = Some root →
       is_Some (db_mozilla !! root) → parent_of db_mozilla root = None →
       n < depth →
       ∃ properties,
         __get_browser_props depth db_mozilla "Mozilla/5.0*Firefox*"
         = Ok properties).
Proof.
  apply (resolve_overlay db_mozilla "Mozilla/5.0*Firefox*"
           {[ "parent" := "Firefox"; "version" := "1.0" ]}).
  compute_done.
Defined.

(** The example file: the leaf takes "browser" from its parent, "platform"
    from its grandparent, and keeps its own "parent" and "version"; the root
    resolves to its raw options. *)
Example resolve_db_mozilla :
  __get_browser_props 3 db_mozilla "Mozilla/5.0*Firefox*" = Ok firefox_properties
  ∧ __get_browser_props 2 db_mozilla "Mozilla/5.0*Firefox*" = Raise RecursionError
  ∧ __get_browser_props 1 db_mozilla "DefaultProperties"
    = Ok {[ "browser" := "Default"; "platform" := "unknown" ]}
  ∧ __get_browser_props 5 db_orphan "Leaf*" = Raise (NoSectionError "Missing").
Proof. compute_done. Qed.

Lemma on_cycle_reaches (cp : ConfigParser) (section : string) :
  on_cycle cp section → reaches_cycle cp section.
Proof. intros Hcycle. by exists 0, section. Qed.

(** C5: a section whose parent chain leads into a cycle of parents, so any
    section on such a cycle, does not resolve: whatever the recursion limit,
    __get_browser_props ends by raising RecursionError.  The loop of load
    passes over such a section and goes on with the rest; after the load of
    a new parser neither table has an entry for it; and the load ends
    without an exception when the patterns of the leaves compile. *)
Theorem cycle_is_skipped `{PyRuntime} (cp : ConfigParser) (section : string) :
  reaches_cycle (without_meta cp) section →
  (∀ depth, __get_browser_props depth (without_meta cp) section
            = Raise RecursionError)
  ∧ (∀ rest self,
       load_sections (without_meta cp) (section :: rest) self
       = load_sections (without_meta cp) rest self)
  ∧ (∀ self o, load cp init = (self, o) →
       dict_get section (user_agent_properties self) = None
       ∧ dict_get section (user_agent_regexps self) = None)
  ∧ ((∀ s, s ∈ child_sections (without_meta cp) →
        is_Some (re_compile (ini_to_regex s))) →
     (load cp init).2 = None).
Proof.
  intros Hcycle.
  assert (Hfail : ∀ depth, __get_browser_props depth (without_meta cp) section
                           = Raise RecursionError).
  { intros depth. by apply get_browser_props_unbounded, reaches_cycle_unbounded. }
  split_and!; [done | | |].
  - intros rest self. by eapply load_sections_skip.
  - intros self o Hload. unfold load in Hload. fold (without_meta cp) in Hload.
    destruct (init_inv (without_meta cp)) as (Hp & Hr & Hk & Hn).
    destruct (load_sections_inv _ (child_sections (without_meta cp)) _ _ _ _
                (λ s, proj1 (elem_of_set_iter _ s)) Hload Hp Hr Hk Hn)
      as (Hp' & Hr' & _).
    assert (Hnone : dict_get section (user_agent_properties self) = None).
    { destruct (dict_get section (user_agent_properties self)) as [l|] eqn:Hl;
        [|done].
      destruct (Hp' _ _ Hl) as (d & _ & Hd). congruence. }
    split; [done|].
    destruct (dict_get section (user_agent_regexps self)) as [re|] eqn:Hre;
      [|done].
    destruct (Hr' _ _ Hre) as [_ [l Hl]]. congruence.
  - intros Hcompile. unfold load. fold (without_meta cp).
    apply load_sections_no_exception. intros s Hs%elem_of_set_iter.
    by apply Hcompile.
Qed.

Lemma cycle_is_skipped_witness :
  (∀ depth, __get_browser_props depth (without_meta db_cycle) "Leaf*"
            = Raise RecursionError)
  ∧ (∀ rest self,
       load_sections (without_meta db_cycle) ("Leaf*" :: rest) self
       = load_sections (without_meta db_cycle) rest self)
  ∧ (∀ self o, load db_cycle init = (self, o) →
       dict_get "Leaf*" (user_agent_properties self) = None
       ∧ dict_get "Leaf*" (user_agent_regexps self) = None)
  ∧ ((∀ s, s ∈ child_sections (without_meta db_cycle) →
        is_Some (re_compile (ini_to_regex s))) →
     (load db_cycle init).2 = None).
Proof.
  apply (cycle_is_skipped db_cycle "Leaf*").
  exists 1, "A". split; [vm_compute; reflexivity|].
  exists 2. split; [lia | vm_compute; reflexivity].
Defined.

(** The file with the cycle A, B: the sections on the cycle raise
    RecursionError, the leaf below them is passed over, and the load goes on
    to store the other leaf and ends without an exception. *)
Example load_db_cycle :
  __get_browser_props recursion_limit db_cycle "A" = Raise RecursionError
  ∧ __get_browser_props recursion_limit db_cycle "B" = Raise RecursionError
  ∧ elements (child_sections (without_meta db_cycle)) = ["Wget*"; "Leaf*"]
  ∧ (load db_cycle init).2 = None
  ∧ dict_keys (user_agent_properties (load db_cycle init).1) = ["Wget*"]
  ∧ dict_keys (user_agent_regexps (load db_cycle init).1) = ["Wget*"].
Proof. vm_compute. by split_and!. Qed.

Lemma opera_parser_loaded : loaded db_opera opera_parser.
Proof.
  unfold opera_parser. do 2 apply loaded_query.
  apply loaded_load. compute_done.
Defined.

(** C3 fails on the code.  The section "Opera/9.*" is in the first file only;
    after the second load its pattern is still in the table, a scan of the
    new table still selects it, and query still returns its dict.  The cache
    is as it was: the string that matched nothing before the second load is
    still answered from the cache as unknown, though a scan of the new table
    selects "Mozilla/5.0*Firefox*" for it.  What a second load does to the
    catalog instead is stated under "A load on a loaded parser" below. *)
Lemma reload_does_not_replace :
  (load db_opera init).2 = None
  ∧ (load db_mozilla opera_parser).2 = None
  ∧ db_mozilla !! "Opera/9.*" = None
  ∧ dict_keys (user_agent_regexps reloaded_parser)
    = ["Opera/9.*"; "Mozilla/5.0*Firefox*"; "Mozilla*"]
  ∧ scan (user_agent_regexps reloaded_parser) opera_agent = "Opera/9.*"
  ∧ (query reloaded_parser opera_agent false).2 = Ok (Stored 0)
  ∧ heap (query reloaded_parser opera_agent false).1 !! 0 = Some opera_properties
  ∧ __match_cache reloaded_parser = __match_cache opera_parser
  ∧ __match_cache reloaded_parser !! firefox_agent = Some ""
  ∧ scan (user_agent_regexps reloaded_parser) firefox_agent
    = "Mozilla/5.0*Firefox*"
  ∧ (query reloaded_parser firefox_agent true).2 = Ok (Fresh ∅)
  ∧ (query reloaded_parser firefox_agent false).2
    = Raise (Exception "Unknown user agent: [Mozilla/5.0 Firefox/1.0]").
Proof. compute_done. Qed.

(** Line 124 of [query] returns [self.user_agent_properties[section]], the
    object that the catalog holds for the selected leaf: whatever the caller
    assigns to a key of the returned dict is assigned in the catalog, and
    the same query returns the same object with the assigned value.  The
    other paths of the class do not share its state in this way: the
    not-found path of [query] returns a dict of its own ([Fresh]) and
    [get_all_user_agents] returns a copy of the keys. *)
Lemma query_returns_stored_dict `{PyRuntime} (cp : ConfigParser)
    (self : UserAgentParser) (user_agent_string : string) (safe : bool)
    (l : loc) :
  loaded cp self →
  (query self user_agent_string safe).2 = Ok (Stored l) →
  let self1 := (query self user_agent_string safe).1 in
  ∃ properties,
    dict_get (__match self user_agent_string).2 (user_agent_properties self1)
    = Some l
    ∧ heap self1 !! l = Some properties
    ∧ ∀ key val,
        let self2 := caller_setitem l key val self1 in
        query self2 user_agent_string safe = (self2, Ok (Stored l))
        ∧ heap self2 !! l = Some (<[key := val]> properties).
Proof.
  intros Hloaded Hq. destruct (loaded_inv _ _ Hloaded) as [Hp Hr Hk Hn Hc Hcomp].
  destruct (match_scan self user_agent_string Hc) as (Hsel & Hcached & _).
  destruct (match_catalog self user_agent_string) as (Hheap & Hprops & Hregs).
  rewrite query_eq in Hq |- *. unfold __check_init in Hq |- *.
  destruct (user_agent_regexps self) as [|entry regexps] eqn:Hne; [done|].
  simpl in Hq |- *.
  assert (Hl : dict_get (__match self user_agent_string).2
                 (user_agent_properties self) = Some l).
  { unfold answer in Hq. case_decide; [by destruct safe|].
    destruct (dict_get _ _); by simplify_eq. }
  destruct (Hp _ _ Hl) as (d & Hd & _). exists d.
  rewrite Hprops, Hheap. split_and!; [done | done |].
  intros key val. split.
  - rewrite query_eq. unfold __check_init. simpl. rewrite Hregs.
    rewrite (match_hit _ _ (__match self user_agent_string).2).
    + simpl. rewrite Hprops. by rewrite Hq.
    + simpl. by rewrite Hcached, Hsel.
  - simpl. rewrite list_lookup_alter_eq. unfold loc in *. by rewrite Hd.
Qed.

Lemma query_returns_stored_dict_witness :
  ∃ properties,
    dict_get (__match mozilla_parser firefox_agent).2
      (user_agent_properties (query mozilla_parser firefox_agent false).1)
    = Some 0
    ∧ heap (query mozilla_parser firefox_agent false).1 !! 0 = Some properties
    ∧ ∀ key val,
        let self2 :=
          caller_setitem 0 key val (query mozilla_parser firefox_agent false).1 in
        query self2 firefox_agent false = (self2, Ok (Stored 0))
        ∧ heap self2 !! 0 = Some (<[key := val]> properties).
Proof.
  apply (query_returns_stored_dict db_mozilla mozilla_parser firefox_agent false 0).
  - apply loaded_load. compute_done.
  - compute_done.
Defined.

(** C7 does not hold of the code, which has a defect here.  The query
    returns the dict at location 0 of the heap, which is the catalog's own
    dict for "Opera/9.*" and no copy of it; after the caller sets "browser"
    in it, the next query for the same string returns the same dict, and its
    "browser" is what the caller wrote, not the value of the file. *)
Lemma query_result_is_not_a_copy :
  let self1 := (load db_opera init).1 in
  let self2 := (query self1 opera_agent false).1 in
  let self3 := caller_setitem 0 "browser" "Mallory" self2 in
  (query self1 opera_agent false).2 = Ok (Stored 0)
  ∧ dict_get "Opera/9.*" (user_agent_properties self2) = Some 0
  ∧ heap self2 !! 0 = Some opera_properties
  ∧ opera_properties !! "browser" = Some "Opera"
  ∧ (query self3 opera_agent false).2 = Ok (Stored 0)
  ∧ heap (query self3 opera_agent false).1 !! 0
    = Some {[ "browser" := "Mallory"; "version" := "9.0" ]}
  ∧ heap (query self3 opera_agent false).1 !! 0 ≠ Some opera_properties.
Proof. cbv zeta. compute_done. Qed.

(** C4: for every section identifier, the pattern that load compiles is the
    identifier with each character of [^ $ ( ) [ ] . -] escaped by a
    backslash, each [?] replaced by the dot (one arbitrary character), each
    [*] replaced by the lazy dot-star (zero or more arbitrary characters),
    between the anchors [^] and [$].  For an identifier made of glob syntax
    and literal characters, the compiled pattern matches a string (without
    line feed) exactly when the whole string matches the glob.  The
    identifier "Mozilla/5.0*Firefox/1.?.*" matches
    "Mozilla/5.0 (X11) Firefox/1.5.0.5" and does not match
    "Mozilla/4.0 Firefox/2.0". *)
Theorem pattern_compiler (section : string) :
  ini_to_regex section = spec_pattern section
  ∧ (plain section →
     ∃ user_agent_re,
       re_compile (ini_to_regex section) = Some user_agent_re
       ∧ user_agent_re = sre.Bol :: (glob_node <$> str_list section) ++ [sre.Eol]
       ∧ ∀ user_agent_string, no_line_feed user_agent_string →
           re_match user_agent_re user_agent_string = true
           ↔ spec_glob section user_agent_string)
  ∧ (∃ user_agent_re,
       re_compile (ini_to_regex firefox_glob) = Some user_agent_re
       ∧ re_match user_agent_re firefox_on_x11 = true
       ∧ re_match user_agent_re firefox_2 = false).
Proof.
  split_and!.
  - apply ini_to_regex_spec.
  - intros Hplain. eexists. split_and!; [by apply sre_compile_plain | done |].
    intros u Hu. by apply run_glob.
  - eexists. split_and!; vm_compute; reflexivity.
Qed.

Lemma pattern_compiler_witness :
  ini_to_regex firefox_glob = spec_pattern firefox_glob
  ∧ ∃ user_agent_re,
      re_compile (ini_to_regex firefox_glob) = Some user_agent_re
      ∧ (re_match user_agent_re firefox_on_x11 = true
         ↔ spec_glob firefox_glob firefox_on_x11)
      ∧ (re_match user_agent_re firefox_2 = true
         ↔ spec_glob firefox_glob firefox_2).
Proof.
  destruct (pattern_compiler firefox_glob) as (Hbuilt & Hplain & _).
  split; [exact Hbuilt|].
  destruct Hplain as (user_agent_re & Hcompile & _ & Hmatch); [compute_done|].
  exists user_agent_re. split; [exact Hcompile|].
  split; apply Hmatch; compute_done.
Defined.

(** * Further properties of the code *)

(** ** The leaves of a file *)

(** X1: the non-parent sections that load goes through are the sections of
    the file, the two meta sections "*" and "GJK_Browscap_Version" apart,
    that no section other than a meta section names as its parent. *)
Theorem leaf_sections (cp : ConfigParser) (section : string) :
  section ∈ child_sections (without_meta cp)
  ↔ section ≠ "*" ∧ section ≠ "GJK_Browscap_Version"
    ∧ is_Some (cp !! section)
    ∧ ∀ t raw, t ≠ "*" → t ≠ "GJK_Browscap_Version" →
        cp !! t = Some raw → raw !! "parent" ≠ Some section.
Proof.
  assert (Hlook : ∀ t, without_meta cp !! t
            = if decide (t = "GJK_Browscap_Version") then None
              else if decide (t = "*") then None else cp !! t).
  { intros t. unfold without_meta, remove_section.
    rewrite lookup_delete. case_decide; [by subst; rewrite decide_True|].
    rewrite decide_False by done. rewrite lookup_delete.
    case_decide; [by subst; rewrite decide_True|]. by rewrite decide_False. }
  rewrite elem_of_child_sections, Hlook. unfold parent_of. split.
  - intros [Hs Hp]. repeat case_decide; try by destruct Hs.
    split_and!; [done..|]. intros t raw Ht1 Ht2 Ht Hraw.
    apply (Hp t). rewrite Hlook, !decide_False, Ht by done. done.
  - intros (H1 & H2 & Hs & Hp). rewrite !decide_False by done.
    split; [done|]. intros t. rewrite Hlook.
    repeat case_decide; try done.
    destruct (cp !! t) as [raw|] eqn:Ht; [|done]. simpl. by eapply Hp.
Qed.

(** ** What resolution ends in *)

Lemma get_browser_props_missing cp n depth section missing :
  ancestor cp n section = Some missing → cp !! missing = None →
  missing ≠ default_section → n < depth →
  __get_browser_props depth cp section = Raise (NoSectionError missing).
Proof.
  revert depth section.
  induction n as [|n IH]; intros depth section Ha Hm Hne Hlt;
    (destruct depth as [|depth]; [lia|]); simpl in Ha |- *.
  - injection Ha as ->. unfold parent_of, items. rewrite Hm. simpl.
    by rewrite decide_False.
  - destruct (parent_of cp section) as [parent|]; [|done]. simpl in Ha.
    rewrite (IH depth parent) by (done || lia). done.
Qed.

Lemma get_browser_props_default cp depth :
  cp !! default_section = None →
  __get_browser_props (S depth) cp default_section = Ok ∅.
Proof.
  intros Hd. simpl. unfold parent_of, items. rewrite Hd. simpl.
  unfold mret, result_ret. by rewrite dict_update_empty.
Qed.

Lemma get_browser_props_ends cp n section root depth :
  ancestor cp n section = Some root →
  parent_of cp root = None →
  is_Some (cp !! root) ∨ root = default_section →
  n < depth →
  ∃ r, __get_browser_props depth cp section = Ok r.
Proof.
  intros Ha Hroot [Hs| ->] Hlt; [by eapply get_browser_props_total|].
  destruct (cp !! default_section) as [raw|] eqn:Hd.
  { eapply get_browser_props_total; [done | by rewrite Hd | done..]. }
  revert section depth Ha Hlt.
  induction n as [|n IH]; intros section depth Ha Hlt.
  - simpl in Ha. injection Ha as ->. destruct depth as [|depth]; [lia|].
    exists ∅. by apply get_browser_props_default.
  - destruct depth as [|depth]; [lia|]. simpl in Ha.
    destruct (parent_of cp section) as [parent|] eqn:Hp; [|done]. simpl in Ha.
    destruct (IH parent depth) as [pp Hpp]; [done | lia |].
    unfold parent_of in Hp.
    destruct (cp !! section) as [raw'|] eqn:Hs; [|done]. simpl in Hp.
    eexists. rewrite (get_browser_props_child cp section raw' parent) by done.
    by rewrite Hpp.
Qed.

Lemma get_browser_props_deep cp depth section :
  is_Some (ancestor cp depth section) →
  __get_browser_props depth cp section = Raise RecursionError.
Proof.
  revert section. induction depth as [|depth IH]; intros section Ha; [done|].
  simpl in Ha |- *. destruct (parent_of cp section) as [parent|];
    [|by destruct Ha]. simpl in Ha. by rewrite IH.
Qed.

Lemma chain_cases cp depth section :
  (∃ n root, n < depth ∧ ancestor cp n section = Some root
             ∧ parent_of cp root = None
             ∧ (is_Some (cp !! root) ∨ root = default_section))
  ∨ (∃ n missing, n < depth ∧ ancestor cp n section = Some missing
                  ∧ cp !! missing = None ∧ missing ≠ default_section)
  ∨ is_Some (ancestor cp depth section).
Proof.
  revert section. induction depth as [|depth IH]; intros section.
  { right; right. by eexists. }
  destruct (parent_of cp section) as [parent|] eqn:Hp.
  - destruct (IH parent) as [(n & root & Hn & Ha & Hroot)
                            |[(n & missing & Hn & Ha & Hm)|Ha]].
    + left. exists (S n), root. split; [lia|]. simpl. by rewrite Hp.
    + right; left. exists (S n), missing. split; [lia|]. simpl. by rewrite Hp.
    + right; right. simpl. by rewrite Hp.
  - destruct (cp !! section) as [raw|] eqn:Hs.
    { left. exists 0, section. split_and!; [lia | done | done |].
      left. by eexists. }
    destruct (decide (section = default_section)) as [->|Hne].
    + left. exists 0, default_section. split_and!; [lia | done | done |].
      by right.
    + right; left. exists 0, section. split_and!; [lia | done | done | done].
Qed.

(** X2: what resolution ends in, for a file as the model takes it (no
    DEFAULT section, no [%] in a value), is decided by the parent chain and
    the recursion limit.  It returns a dict exactly when the chain ends, in
    fewer steps than the limit, in a name without parent that is a section
    of the file or is "DEFAULT"; it raises NoSectionError for a name exactly
    when the chain reaches that name in fewer steps than the limit, the
    name is not "DEFAULT" and the file has no such section; it raises
    RecursionError exactly when the chain has as many steps as the limit,
    cyclic or not.  It raises nothing else. *)
Theorem resolve_outcome (cp : ConfigParser) (depth : nat) (section : string) :
  cp !! default_section = None → no_interpolation cp →
  ((∃ properties, __get_browser_props depth cp section = Ok properties)
   ↔ ∃ n root, n < depth ∧ ancestor cp n section = Some root
               ∧ parent_of cp root = None
               ∧ (is_Some (cp !! root) ∨ root = default_section))
  ∧ (∀ missing,
       __get_browser_props depth cp section = Raise (NoSectionError missing)
       ↔ ∃ n, n < depth ∧ ancestor cp n section = Some missing
              ∧ cp !! missing = None ∧ missing ≠ default_section)
  ∧ (__get_browser_props depth cp section = Raise RecursionError
     ↔ is_Some (ancestor cp depth section))
  ∧ ∀ e, __get_browser_props depth cp section = Raise e →
      e = RecursionError ∨ ∃ missing, e = NoSectionError missing.
Proof.
  intros _ _.
  assert (Hcases :
    (∃ d n root, __get_browser_props depth cp section = Ok d
        ∧ n < depth ∧ ancestor cp n section = Some root
        ∧ parent_of cp root = None
        ∧ (is_Some (cp !! root) ∨ root = default_section))
    ∨ (∃ n missing, __get_browser_props depth cp section
                    = Raise (NoSectionError missing)
        ∧ n < depth ∧ ancestor cp n section = Some missing
        ∧ cp !! missing = None ∧ missing ≠ default_section)
    ∨ (__get_browser_props depth cp section = Raise RecursionError
       ∧ is_Some (ancestor cp depth section))).
  { destruct (chain_cases cp depth section)
      as [(n & root & Hn & Ha & Hp & Hroot)
         |[(n & missing & Hn & Ha & Hm & Hne)|Ha]].
    - destruct (get_browser_props_ends cp n section root depth) as [d Hd];
        [done..|]. left. by exists d, n, root.
    - right; left. exists n, missing. split; [|done].
      by eapply get_browser_props_missing.
    - right; right. split; [|done]. by apply get_browser_props_deep. }
  split_and!.
  - split.
    + intros [d Hd].
      destruct Hcases as [(d' & n & root & _ & H')|[(n & m & Hr & _)|[Hr _]]];
        [by exists n, root | congruence | congruence].
    + intros (n & root & Hn & Ha & Hp & Hroot).
      by eapply get_browser_props_ends.
  - intros missing. split.
    + intros Hm.
      destruct Hcases as [(d' & n & root & Hr & _)|[(n & m & Hr & H')|[Hr _]]];
        [congruence | | congruence].
      rewrite Hr in Hm. injection Hm as <-. by exists n.
    + intros (n & Hn & Ha & Hm & Hne). by eapply get_browser_props_missing.
  - split.
    + intros Hrec.
      destruct Hcases as [(d' & n & root & Hr & _)|[(n & m & Hr & _)|[_ Ha]]];
        [congruence | congruence | done].
    + apply get_browser_props_deep.
  - intros e He.
    destruct Hcases as [(d' & n & root & Hr & _)|[(n & m & Hr & _)|[Hr _]]].
    + congruence.
    + right. exists m. congruence.
    + left. congruence.
Qed.

Lemma resolve_outcome_witness :
  db_default !! default_section = None
  ∧ no_interpolation db_default
  ∧ ((∃ properties, __get_browser_props 5 db_default "Leaf*" = Ok properties)
   ↔ ∃ n root, n < 5 ∧ ancestor db_default n "Leaf*" = Some root
               ∧ parent_of db_default root = None
               ∧ (is_Some (db_default !! root) ∨ root = default_section))
  ∧ (∀ missing,
       __get_browser_props 5 db_default "Leaf*" = Raise (NoSectionError missing)
       ↔ ∃ n, n < 5 ∧ ancestor db_default n "Leaf*" = Some missing
              ∧ db_default !! missing = None ∧ missing ≠ default_section)
  ∧ (__get_browser_props 5 db_default "Leaf*" = Raise RecursionError
     ↔ is_Some (ancestor db_default 5 "Leaf*"))
  ∧ ∀ e, __get_browser_props 5 db_default "Leaf*" = Raise e →
      e = RecursionError ∨ ∃ missing, e = NoSectionError missing.
Proof.
  assert (Hdefault : db_default !! default_section = None) by compute_done.
  assert (Hvalues : no_interpolation db_default)
    by (unfold no_interpolation; compute_done).
  split; [exact Hdefault|]. split; [exact Hvalues|].
  exact (resolve_outcome db_default 5 "Leaf*" Hdefault Hvalues).
Defined.

(** The leaf below "DEFAULT" resolves to its own options, and the leaf below
    a name that is no section and is not "DEFAULT" does not resolve. *)
Example resolve_below_default :
  __get_browser_props 5 db_default "Leaf*"
  = Ok {[ "parent" := "DEFAULT"; "browser" := "Leaf" ]}
  ∧ __get_browser_props 5 db_default "DEFAULT" = Ok ∅
  ∧ __get_browser_props 5 db_orphan "Leaf*" = Raise (NoSectionError "Missing").
Proof. compute_done. Qed.

(** X3: in the dict that resolution returns, a key has the value that the
    nearest section of the parent chain gives it, counting the section
    itself as the nearest: a more distant section is used only for keys
    that no nearer one has.  In particular "parent" is the section's own
    parent, and is absent for a section without parent. *)
Theorem resolved_value (cp : ConfigParser) (depth : nat) (section : string)
    (properties : props) (key val : string) :
  __get_browser_props depth cp section = Ok properties →
  (properties !! key = Some val
   ↔ ∃ n owner raw,
       ancestor cp n section = Some owner ∧ cp !! owner = Some raw
       ∧ raw !! key = Some val
       ∧ ∀ m nearer raw', m < n → ancestor cp m section = Some nearer →
           cp !! nearer = Some raw' → raw' !! key = None)
  ∧ properties !! "parent" = parent_of cp section.
Proof.
  revert section properties.
  induction depth as [|depth IH]; intros section properties Hres; [done|].
  destruct (cp !! section) as [raw|] eqn:Hs.
  2:{ simpl in Hres. unfold parent_of, items in Hres. rewrite Hs in Hres.
      simpl in Hres. case_decide; [|done]. simpl in Hres.
      unfold mret, result_ret in Hres. rewrite dict_update_empty in Hres.
      injection Hres as <-. rewrite !lookup_empty.
      split; [|unfold parent_of; by rewrite Hs]. split; [done|].
      intros (n & owner & raw0 & Ha & Ho & _). destruct n as [|n].
      - simpl in Ha. injection Ha as <-. congruence.
      - simpl in Ha. unfold parent_of in Ha. by rewrite Hs in Ha. }
  destruct (raw !! "parent") as [parent|] eqn:Hp.
  - rewrite (get_browser_props_child cp section raw parent) in Hres by done.
    destruct (__get_browser_props depth cp parent) as [pp|] eqn:Hpp; [|done].
    injection Hres as <-. destruct (IH parent pp Hpp) as [IHkey _].
    rewrite !dict_update_lookup, (parent_of_Some _ _ raw), Hp by done.
    split; [|done].
    destruct (raw !! key) as [v|] eqn:Hkey.
    + split.
      * intros [= ->]. exists 0, section, raw. split_and!; [done..|]. lia.
      * intros (n & owner & raw0 & Ha & Ho & Hv & Hnear).
        destruct n as [|n].
        -- simpl in Ha. injection Ha as <-. congruence.
        -- specialize (Hnear 0 section raw). rewrite Hkey in Hnear.
           discriminate Hnear; [lia | done | done].
    + rewrite IHkey. split.
      * intros (n & owner & raw0 & Ha & Ho & Hv & Hnear).
        exists (S n), owner, raw0. split_and!; [|done..|].
        { simpl. by rewrite (parent_of_Some _ _ raw), Hp. }
        intros [|m] nearer raw' Hm Ha' Hn'.
        -- simpl in Ha'. injection Ha' as <-. congruence.
        -- simpl in Ha'. rewrite (parent_of_Some _ _ raw), Hp in Ha' by done.
           eapply (Hnear m); [lia | done | done].
      * intros (n & owner & raw0 & Ha & Ho & Hv & Hnear).
        destruct n as [|n].
        { simpl in Ha. injection Ha as <-. congruence. }
        simpl in Ha. rewrite (parent_of_Some _ _ raw), Hp in Ha by done.
        exists n, owner, raw0. split_and!; [done..|].
        intros m nearer raw' Hm Ha' Hn'. apply (Hnear (S m) nearer raw');
          [lia | | done].
        simpl. by rewrite (parent_of_Some _ _ raw), Hp.
  - rewrite (get_browser_props_root cp section raw) in Hres by done.
    injection Hres as <-. rewrite (parent_of_Some _ _ raw), Hp by done.
    split; [|done]. split.
    + intros Hv. exists 0, section, raw. split_and!; [done..|]. lia.
    + intros (n & owner & raw0 & Ha & Ho & Hv & _). destruct n as [|n].
      * simpl in Ha. injection Ha as <-. congruence.
      * simpl in Ha. by rewrite (parent_of_Some _ _ raw), Hp in Ha.
Qed.

Lemma resolved_value_witness :
  ∃ properties,
    __get_browser_props 3 db_chain "Leaf?" = Ok properties
    ∧ (properties !! "browser" = Some "Mid"
       ↔ ∃ n owner raw,
           ancestor db_chain n "Leaf?" = Some owner ∧ db_chain !! owner = Some raw
           ∧ raw !! "browser" = Some "Mid"
           ∧ ∀ m nearer raw', m < n → ancestor db_chain m "Leaf?" = Some nearer →
               db_chain !! nearer = Some raw' → raw' !! "browser" = None)
    ∧ properties !! "parent" = parent_of db_chain "Leaf?".
Proof.
  exists {[ "parent" := "Mid"; "version" := "2"; "browser" := "Mid";
            "platform" := "unknown" ]}.
  assert (Hres : __get_browser_props 3 db_chain "Leaf?"
                 = Ok {[ "parent" := "Mid"; "version" := "2"; "browser" := "Mid";
                         "platform" := "unknown" ]}) by compute_done.
  split; [exact Hres|].
  exact (resolved_value db_chain 3 "Leaf?" _ "browser" "Mid" Hres).
Defined.

(** ** When load raises *)

Section load_outcome.
Context `{PyRuntime}.
Implicit Types (self : UserAgentParser) (cp : ConfigParser).

Lemma NoDup_set_iter (X : gset string) : NoDup (set_iter X).
Proof. rewrite set_iter_perm. apply NoDup_elements. Qed.

Lemma load_sections_outcome_None cp secs self :
  (load_sections cp secs self).2 = None
  ↔ ∀ s d, s ∈ secs → __get_browser_props recursion_limit cp s = Ok d →
      is_Some (re_compile (ini_to_regex s)).
Proof.
  revert self. induction secs as [|s0 secs IH]; intros self; simpl.
  { split; [by intros _ s d ?%elem_of_nil | done]. }
  destruct (__get_browser_props recursion_limit cp s0) as [d0|e0] eqn:Hres.
  - destruct (re_compile (ini_to_regex s0)) as [re0|] eqn:Hc; simpl.
    + rewrite IH. split.
      * intros Hall s d [->|Hin]%elem_of_cons Hd; [by eexists | by eapply Hall].
      * intros Hall s d Hin Hd. eapply Hall; [by right | done].
    + split; [done|]. intros Hall.
      destruct (Hall s0 d0) as [re Hre]; [by left | done | congruence].
  - rewrite IH. split.
    + intros Hall s d [->|Hin]%elem_of_cons Hd; [congruence | by eapply Hall].
    + intros Hall s d Hin Hd. eapply Hall; [by right | done].
Qed.

Lemma load_sections_raise cp secs self self' e :
  NoDup secs →
  load_sections cp secs self = (self', Some e) →
  ∃ s d l, s ∈ secs ∧ e = re_error (ini_to_regex s)
    ∧ __get_browser_props recursion_limit cp s = Ok d
    ∧ re_compile (ini_to_regex s) = None
    ∧ dict_get s (user_agent_properties self') = Some l
    ∧ heap self' !! l = Some d
    ∧ dict_get s (user_agent_regexps self')
      = dict_get s (user_agent_regexps self)
    ∧ (dict_keys (user_agent_properties self)
       = dict_keys (user_agent_regexps self) →
       dict_keys (user_agent_properties self')
       = if decide (s ∈ dict_keys (user_agent_regexps self'))
         then dict_keys (user_agent_regexps self')
         else dict_keys (user_agent_regexps self') ++ [s]).
Proof.
  revert self. induction secs as [|s0 secs IH]; intros self Hnodup Hload;
    [done|]. apply NoDup_cons in Hnodup as [Hs0 Hnodup]. simpl in Hload.
  destruct (__get_browser_props recursion_limit cp s0) as [d0|e0] eqn:Hres.
  - destruct (re_compile (ini_to_regex s0)) as [re0|] eqn:Hc.
    + destruct (IH _ Hnodup Hload)
        as (s & d & l & Hin & -> & Hd & Hnone & Hl & Hh & Hr & Hk).
      exists s, d, l. split_and!; [by right | done..| |].
      * rewrite Hr. simpl. rewrite dict_get_set_ne; [done|]. by intros ->.
      * intros Hkeys. apply Hk.
        cbn [set_regexp set_properties user_agent_properties user_agent_regexps].
        by rewrite !dict_keys_set, Hkeys.
    + injection Hload as <- <-. exists s0, d0, (length (heap self)).
      split_and!; [by left | done | done | done | | | done |]; simpl.
      * by rewrite dict_get_set_eq.
      * by rewrite lookup_app_r, Nat.sub_diag.
      * intros Hkeys.
        cbn [set_properties user_agent_properties user_agent_regexps].
        by rewrite dict_keys_set, Hkeys.
  - destruct (IH _ Hnodup Hload) as (s & d & l & Hin & ? & ? & ? & ? & ? & ? & ?).
    exists s, d, l. split_and!; [by right | done..].
Qed.

(** The two tables have the same keys, in the same order, after every
    section that the loop stores. *)
Lemma load_sections_same_keys cp secs self self' :
  dict_keys (user_agent_properties self) = dict_keys (user_agent_regexps self) →
  load_sections cp secs self = (self', None) →
  dict_keys (user_agent_properties self')
  = dict_keys (user_agent_regexps self').
Proof.
  revert self. induction secs as [|s0 secs IH]; intros self Hkeys Hload.
  { by injection Hload as <-. }
  simpl in Hload.
  destruct (__get_browser_props recursion_limit cp s0) as [d0|e0];
    [|by apply (IH self)].
  destruct (re_compile (ini_to_regex s0)) as [re0|]; [|done].
  apply (IH (set_regexp s0 re0 (set_properties s0 d0 self))); [|done].
  cbn [set_regexp set_properties user_agent_properties user_agent_regexps].
  by rewrite !dict_keys_set, Hkeys.
Qed.
End load_outcome.

(** X4: a load ends without an exception exactly when the pattern of every
    leaf section that resolves compiles.  Otherwise it raises re.error for
    the pattern of such a leaf, at which point the properties of that leaf
    are already stored while its entry of the pattern table is what it was
    before the load. *)
Theorem load_raises `{PyRuntime} (cp : ConfigParser) (self : UserAgentParser) :
  ((load cp self).2 = None
   ↔ ∀ section properties,
       section ∈ child_sections (without_meta cp) →
       __get_browser_props recursion_limit (without_meta cp) section
       = Ok properties →
       is_Some (re_compile (ini_to_regex section)))
  ∧ ∀ e, (load cp self).2 = Some e →
      ∃ section properties l,
        e = re_error (ini_to_regex section)
        ∧ section ∈ child_sections (without_meta cp)
        ∧ __get_browser_props recursion_limit (without_meta cp) section
          = Ok properties
        ∧ re_compile (ini_to_regex section) = None
        ∧ dict_get section (user_agent_properties (load cp self).1) = Some l
        ∧ heap (load cp self).1 !! l = Some properties
        ∧ dict_get section (user_agent_regexps (load cp self).1)
          = dict_get section (user_agent_regexps self).
Proof.
  unfold load. fold (without_meta cp). split.
  - rewrite load_sections_outcome_None. by setoid_rewrite elem_of_set_iter.
  - intros e He.
    destruct (load_sections (without_meta cp)
                (set_iter (child_sections (without_meta cp))) self)
      as [self' o] eqn:Hload. simpl in He. subst o.
    destruct (load_sections_raise _ _ _ _ _ (NoDup_set_iter _) Hload)
      as (s & d & l & Hin & ? & ? & ? & ? & ? & ? & _).
    exists s, d, l. by rewrite <- elem_of_set_iter.
Qed.

Lemma load_raises_witness :
  ∃ section properties l,
    re_error "^+http.*?$" = re_error (ini_to_regex section)
    ∧ section ∈ child_sections (without_meta db_plus)
    ∧ __get_browser_props recursion_limit (without_meta db_plus) section
      = Ok properties
    ∧ re_compile (ini_to_regex section) = None
    ∧ dict_get section (user_agent_properties (load db_plus init).1) = Some l
    ∧ heap (load db_plus init).1 !! l = Some properties
    ∧ dict_get section (user_agent_regexps (load db_plus init).1)
      = dict_get section (user_agent_regexps init).
Proof.
  apply (proj2 (load_raises db_plus init) (re_error "^+http.*?$")).
  compute_done.
Defined.

(** X5: after the load of a new parser the two tables have the same keys in
    the same order when the load raised nothing; when it raised re.error,
    the property table has one key more, at its end: the section whose
    pattern failed to compile. *)
Theorem load_tables_keys `{PyRuntime} (cp : ConfigParser) :
  match (load cp init).2 with
  | None =>
      dict_keys (user_agent_properties (load cp init).1)
      = dict_keys (user_agent_regexps (load cp init).1)
  | Some e =>
      ∃ section,
        e = re_error (ini_to_regex section)
        ∧ re_compile (ini_to_regex section) = None
        ∧ dict_keys (user_agent_properties (load cp init).1)
          = dict_keys (user_agent_regexps (load cp init).1) ++ [section]
  end.
Proof.
  unfold load. fold (without_meta cp).
  destruct (load_sections (without_meta cp)
              (set_iter (child_sections (without_meta cp))) init)
    as [self' o] eqn:Hload. simpl.
  destruct o as [e|].
  - destruct (load_sections_raise _ _ _ _ _ (NoDup_set_iter _) Hload)
      as (s & d & l & _ & -> & _ & Hnone & _ & _ & Hregs & Hkeys).
    exists s. split_and!; [done | done |].
    change (dict_get s (user_agent_regexps init)) with (@None regex) in Hregs.
    rewrite dict_get_None in Hregs.
    rewrite Hkeys by done. by rewrite decide_False.
  - exact (load_sections_same_keys _ _ init self' eq_refl Hload).
Qed.

Lemma sre_compile_leading_plus (rest : string) :
  sre.sre_compile (ini_to_regex (String "+"%char rest)) = None.
Proof.
  rewrite ini_to_regex_spec. unfold spec_pattern, sre.sre_compile.
  change (str_flat_map spec_glob_char (String "+"%char rest))
    with ("+" +:+ str_flat_map spec_glob_char rest).
  change ("^" +:+ ("+" +:+ str_flat_map spec_glob_char rest) +:+ "$")
    with ("^+" +:+ (str_flat_map spec_glob_char rest +:+ "$")).
  rewrite parse_from_app.
  change (sre.parse_from ([], false) "^+") with (@None (list sre.node * bool)).
  done.
Qed.

(** X6: with CPython's [re], the pattern of an identifier that starts with a
    plus sign does not compile ("nothing to repeat" after the anchor), so a
    file in which such a leaf section resolves makes load raise re.error,
    on any parser. *)
Theorem leading_plus_aborts_load (cp : ConfigParser) (self : UserAgentParser)
    (rest : string) (properties : props) :
  String "+"%char rest ∈ child_sections (without_meta cp) →
  __get_browser_props recursion_limit (without_meta cp) (String "+"%char rest)
  = Ok properties →
  re_compile (ini_to_regex (String "+"%char rest)) = None
  ∧ ∃ e, (load cp self).2 = Some e.
Proof.
  intros Hleaf Hres. split; [apply sre_compile_leading_plus|].
  destruct (load cp self).2 as [e|] eqn:Hload; [by exists e|].
  unfold load in Hload. fold (without_meta cp) in Hload.
  rewrite load_sections_outcome_None in Hload.
  destruct (Hload _ _ (proj2 (elem_of_set_iter _ _) Hleaf) Hres) as [re Hre].
  simpl in Hre. by rewrite sre_compile_leading_plus in Hre.
Qed.

Lemma leading_plus_aborts_load_witness :
  re_compile (ini_to_regex "+http*") = None
  ∧ ∃ e, (load db_plus init).2 = Some e.
Proof.
  apply (leading_plus_aborts_load db_plus init "http*" {[ "browser" := "Bot" ]});
    compute_done.
Defined.

(** The file whose only leaf starts with a plus sign: load raises, the
    properties of the leaf are stored, no pattern is, and the parser still
    counts as not initialized. *)
Example load_db_plus :
  (load db_plus init).2 = Some (re_error "^+http.*?$")
  ∧ dict_keys (user_agent_properties (load db_plus init).1) = ["+http*"]
  ∧ dict_keys (user_agent_regexps (load db_plus init).1) = []
  ∧ (query (load db_plus init).1 "+http://example.org/bot" true).2
    = Raise not_initialized.
Proof. compute_done. Qed.

(** ** What every use of a parser keeps *)

Section history_facts.
Context `{PyRuntime}.
Implicit Types (self : UserAgentParser) (cp : ConfigParser).

Lemma tables_inv_init : tables_inv init.
Proof.
  split; simpl.
  - apply NoDup_nil_2.
  - by intros s ?%elem_of_nil.
  - done.
  - done.
Qed.

Lemma tables_inv_set_properties section properties self :
  tables_inv self → tables_inv (set_properties section properties self).
Proof.
  intros [Hn Hp Hh Hc]. split; simpl; [done | | | done].
  - intros s Hs. rewrite dict_keys_set.
    case_decide; [by apply Hp|]. apply elem_of_app. left. by apply Hp.
  - intros s l. destruct (decide (section = s)) as [->|Hne].
    + rewrite dict_get_set_eq. intros [= <-].
      rewrite lookup_app_r, Nat.sub_diag by done. by eexists.
    + rewrite dict_get_set_ne by done. intros Hl.
      destruct (Hh s l Hl) as [d Hd]. exists d. by apply lookup_app_l_Some.
Qed.

Lemma tables_inv_set_regexp section user_agent_re self :
  section ∈ dict_keys (user_agent_properties self) →
  tables_inv self → tables_inv (set_regexp section user_agent_re self).
Proof.
  intros Hs [Hn Hp Hh Hc]. split; simpl; [| | done |].
  - by apply dict_set_NoDup.
  - intros s. rewrite dict_keys_set. case_decide; [by apply Hp|].
    intros [?| ->%list_elem_of_singleton]%elem_of_app; [by apply Hp | done].
  - intros ua cached Hua. destruct (Hc ua cached Hua) as [?|Hin]; [by left|].
    right. rewrite dict_keys_set. case_decide; [done|].
    apply elem_of_app. by left.
Qed.

Lemma tables_inv_load_sections cp secs self :
  tables_inv self → tables_inv (load_sections cp secs self).1.
Proof.
  revert self. induction secs as [|s secs IH]; intros self Hinv; [done|].
  simpl. destruct (__get_browser_props recursion_limit cp s) as [d|e];
    [|by apply IH].
  pose proof (tables_inv_set_properties s d self Hinv) as Hinv1.
  destruct (re_compile (ini_to_regex s)) as [re|]; [|done].
  apply IH, tables_inv_set_regexp; [|done].
  simpl. apply dict_get_is_Some. rewrite dict_get_set_eq. by eexists.
Qed.

Lemma match_cached self ua :
  __match_cache (__match self ua).1 !! ua = Some (__match self ua).2.
Proof.
  unfold __match. destruct (__match_cache self !! ua) as [cached|] eqn:Hc;
    simpl; [done | by rewrite lookup_insert_eq].
Qed.

Lemma match_cache_other self ua ua' :
  ua' ≠ ua → __match_cache (__match self ua).1 !! ua' = __match_cache self !! ua'.
Proof.
  intros Hne. unfold __match. destruct (__match_cache self !! ua); simpl;
    [done | by rewrite lookup_insert_ne].
Qed.

Lemma match_cache_keeps self ua ua' cached :
  __match_cache self !! ua' = Some cached →
  __match_cache (__match self ua).1 !! ua' = Some cached.
Proof.
  intros Hc. destruct (decide (ua' = ua)) as [->|Hne].
  - by rewrite (match_hit _ _ _ Hc).
  - by rewrite match_cache_other.
Qed.

Lemma scan_key (regexps : list (string * regex)) ua :
  scan regexps ua = "" ∨ scan regexps ua ∈ dict_keys regexps.
Proof.
  destruct (scan_spec regexps ua) as [[?|(re & Hin & _)] _]; [by left|].
  right. apply list_elem_of_fmap. by eexists (_, re).
Qed.

Lemma tables_inv_match self ua : tables_inv self → tables_inv (__match self ua).1.
Proof.
  intros [Hn Hp Hh Hc].
  destruct (match_catalog self ua) as (Hheap & Hprops & Hregs).
  split; rewrite ?Hheap, ?Hprops, ?Hregs; [done..|].
  intros ua' cached. unfold __match.
  destruct (__match_cache self !! ua) as [c|] eqn:Hua; simpl; [apply Hc|].
  rewrite lookup_insert. case_decide; [|apply Hc].
  intros [= <-]. apply scan_key.
Qed.

Lemma tables_inv_step self self' : step self self' → tables_inv self → tables_inv self'.
Proof.
  intros [cp s|s ua safe|s l key val] Hinv.
  - apply tables_inv_load_sections, Hinv.
  - destruct (query_state s ua safe) as [-> | ->];
      [done | by apply tables_inv_match].
  - destruct Hinv as [Hn Hp Hh Hc]. split; simpl; [done | done | | done].
    intros section l' Hl. destruct (Hh section l' Hl) as [d Hd].
    rewrite list_lookup_alter. case_decide; [subst|by eexists].
    unfold loc in *. rewrite Hd. by eexists.
Qed.

Lemma reachable_inv self : reachable self → tables_inv self.
Proof.
  unfold reachable. revert self.
  apply (rtc_ind_r (λ self, tables_inv self) init); [apply tables_inv_init|].
  intros self self' _ Hstep Hinv. by eapply tables_inv_step.
Qed.

Lemma load_sections_cache cp secs self :
  __match_cache (load_sections cp secs self).1 = __match_cache self.
Proof.
  revert self. induction secs as [|s secs IH]; intros self; [done|].
  simpl. destruct (__get_browser_props recursion_limit cp s) as [d|e];
    [|apply IH].
  destruct (re_compile (ini_to_regex s)) as [re|]; [|done]. by rewrite IH.
Qed.

Lemma step_cache_keeps self self' ua cached :
  step self self' →
  __match_cache self !! ua = Some cached →
  __match_cache self' !! ua = Some cached.
Proof.
  intros [cp s|s ua' safe|s l key val] Hc.
  - unfold load. by rewrite load_sections_cache.
  - destruct (query_state s ua' safe) as [-> | ->];
      [done | by apply match_cache_keeps].
  - done.
Qed.
End history_facts.

(** X7: on a parser that was constructed and then used in any way (loads
    that ended with or without an exception, queries, assignments by
    callers to returned dicts), query ends in one of three ways: it raises
    the "not initialized" exception, exactly when the pattern table is empty;
    or __match selected a section, and it returns the reference stored for
    that section in the property table, which refers to an existing dict;
    or __match selected nothing, and it returns a new empty dict when [safe]
    is set and raises the "unknown user agent" exception otherwise.  It never
    raises KeyError. *)
Theorem query_outcomes `{PyRuntime} (self : UserAgentParser)
    (user_agent_string : string) (safe : bool) :
  reachable self →
  ((user_agent_regexps self = []
    ∧ (query self user_agent_string safe).2 = Raise not_initialized)
   ∨ (user_agent_regexps self ≠ []
      ∧ ((∃ l properties,
            (__match self user_agent_string).2 ≠ ""
            ∧ dict_get (__match self user_agent_string).2
                (user_agent_properties self) = Some l
            ∧ (query self user_agent_string safe).2 = Ok (Stored l)
            ∧ heap (query self user_agent_string safe).1 !! l = Some properties)
         ∨ ((__match self user_agent_string).2 = ""
            ∧ (query self user_agent_string safe).2
              = if safe then Ok (Fresh ∅)
                else Raise (unknown_user_agent user_agent_string)))))
  ∧ ∀ key, (query self user_agent_string safe).2 ≠ Raise (KeyError key).
Proof.
  intros Hreach. pose proof (reachable_inv _ Hreach) as Hinv.
  pose proof (tables_inv_match _ user_agent_string Hinv) as [_ Hp Hh Hc].
  destruct (match_catalog self user_agent_string) as (Hheap & Hprops & Hregs).
  rewrite Hheap, Hprops, Hregs in *.
  specialize (Hc _ _ (match_cached self user_agent_string)).
  rewrite query_eq. unfold __check_init, answer.
  destruct (user_agent_regexps self) as [|entry regexps] eqn:Hne.
  { split; [by left | done]. }
  simpl. rewrite Hheap.
  destruct (decide ((__match self user_agent_string).2 = "")) as [Hnil|Hsel].
  - split; [|by destruct safe]. right. split; [done|]. by right.
  - destruct Hc as [?|Hkey]; [done|].
    apply Hp, dict_get_is_Some in Hkey as [l Hl]. rewrite Hl.
    destruct (Hh _ _ Hl) as [d Hd].
    split; [|done]. right. split; [done|]. left. by exists l, d.
Qed.

Lemma mozilla_parser_reachable : reachable mozilla_parser.
Proof. apply rtc_once. apply (step_load db_mozilla init). Defined.

Lemma query_outcomes_witness :
  ((user_agent_regexps mozilla_parser = []
    ∧ (query mozilla_parser firefox_agent false).2 = Raise not_initialized)
   ∨ (user_agent_regexps mozilla_parser ≠ []
      ∧ ((∃ l properties,
            (__match mozilla_parser firefox_agent).2 ≠ ""
            ∧ dict_get (__match mozilla_parser firefox_agent).2
                (user_agent_properties mozilla_parser) = Some l
            ∧ (query mozilla_parser firefox_agent false).2 = Ok (Stored l)
            ∧ heap (query mozilla_parser firefox_agent false).1 !! l
              = Some properties)
         ∨ ((__match mozilla_parser firefox_agent).2 = ""
            ∧ (query mozilla_parser firefox_agent false).2
              = Raise (unknown_user_agent firefox_agent)))))
  ∧ ∀ key, (query mozilla_parser firefox_agent false).2 ≠ Raise (KeyError key).
Proof.
  exact (query_outcomes mozilla_parser firefox_agent false
           mozilla_parser_reachable).
Defined.

(** X8: the cache is never emptied and no entry of it is ever replaced.
    Once __match has answered for a string, every later __match for that
    string returns the same section, whatever was loaded, queried or
    assigned in between, and without changing the parser. *)
Theorem selection_is_frozen `{PyRuntime} (self self' : UserAgentParser)
    (user_agent_string : string) :
  rtc step (__match self user_agent_string).1 self' →
  __match self' user_agent_string
  = (self', (__match self user_agent_string).2).
Proof.
  intros Hsteps. apply match_hit. revert self' Hsteps.
  apply (rtc_ind_r
           (λ self', __match_cache self' !! user_agent_string
                     = Some (__match self user_agent_string).2)
           (__match self user_agent_string).1); [apply match_cached|].
  intros s1 s2 _ Hstep IH. by eapply step_cache_keeps.
Qed.

Lemma selection_is_frozen_witness :
  __match (load db_mozilla (__match (load db_opera init).1 firefox_agent).1).1
    firefox_agent
  = ((load db_mozilla (__match (load db_opera init).1 firefox_agent).1).1,
     (__match (load db_opera init).1 firefox_agent).2).
Proof.
  apply selection_is_frozen. apply rtc_once. apply step_load.
Defined.

(** X9: a query leaves the heap and the two tables of the catalog as they
    are and leaves every cache entry of another string as it is; when the
    pattern table is empty or the string is in the cache already, it
    changes nothing at all. *)
Theorem query_frame `{PyRuntime} (self : UserAgentParser)
    (user_agent_string : string) (safe : bool) :
  heap (query self user_agent_string safe).1 = heap self
  ∧ user_agent_properties (query self user_agent_string safe).1
    = user_agent_properties self
  ∧ user_agent_regexps (query self user_agent_string safe).1
    = user_agent_regexps self
  ∧ (∀ other, other ≠ user_agent_string →
       __match_cache (query self user_agent_string safe).1 !! other
       = __match_cache self !! other)
  ∧ (user_agent_regexps self = []
     ∨ is_Some (__match_cache self !! user_agent_string) →
     (query self user_agent_string safe).1 = self).
Proof.
  rewrite query_eq. unfold __check_init.
  destruct (user_agent_regexps self) as [|entry regexps] eqn:Hne; simpl.
  { split_and!; done. }
  rewrite <- Hne.
  destruct (match_catalog self user_agent_string) as (Hheap & Hprops & Hregs).
  split_and!; [done | done | done | |].
  - intros other Hother. by apply match_cache_other.
  - intros [Hnil|[cached Hc]]; [congruence|].
    by rewrite (match_hit _ _ _ Hc).
Qed.

(** ** Which entry the scan selects *)

Section scan_order.
Context `{PyRuntime}.
Implicit Types (regexps : list (string * regex)).

Lemma scan_fold_stays regexps ua acc :
  (∀ s re, (s, re) ∈ regexps → re_match re ua = true →
     String.length s ≤ String.length acc) →
  foldl (scan_step ua) acc regexps = acc.
Proof.
  revert acc. induction regexps as [|[s0 re0] regexps IH]; intros acc Hle;
    [done|]. cbn [foldl].
  assert (Hstep : scan_step ua acc (s0, re0) = acc).
  { unfold scan_step. destruct (re_match re0 ua) eqn:Hm; [|done]. simpl.
    case_bool_decide as Hlt; [|done].
    specialize (Hle s0 re0 ltac:(by left) Hm). lia. }
  rewrite Hstep. apply IH. intros s re Hin. apply Hle. by right.
Qed.
End scan_order.

(** X10: among the entries whose pattern matches, the scan selects the first
    one, in the order of the table, that no other one exceeds in length: an
    entry with a non-empty identifier whose pattern matches is selected when
    every matching entry before it is strictly shorter and no matching entry
    after it is longer. *)
Theorem scan_first_longest `{PyRuntime} (before after : list (string * regex))
    (section : string) (user_agent_re : regex) (user_agent_string : string) :
  re_match user_agent_re user_agent_string = true →
  section ≠ "" →
  (∀ s re, (s, re) ∈ before → re_match re user_agent_string = true →
     String.length s < String.length section) →
  (∀ s re, (s, re) ∈ after → re_match re user_agent_string = true →
     String.length s ≤ String.length section) →
  scan (before ++ (section, user_agent_re) :: after) user_agent_string
  = section.
Proof.
  intros Hm Hne Hbefore Hafter. unfold scan. rewrite foldl_app. cbn [foldl].
  destruct (scan_fold before user_agent_string "") as (Hsel & _ & _).
  assert (Hlt : String.length (foldl (scan_step user_agent_string) "" before)
                < String.length section).
  { destruct Hsel as [-> | (re & Hin & Hre & _)].
    - destruct section; [done | simpl; lia].
    - by eapply Hbefore. }
  assert (Hstep : scan_step user_agent_string
                    (foldl (scan_step user_agent_string) "" before)
                    (section, user_agent_re) = section).
  { unfold scan_step. rewrite Hm. simpl. by rewrite bool_decide_eq_true_2. }
  rewrite Hstep. by apply scan_fold_stays.
Qed.

Lemma scan_first_longest_witness :
  scan two_patterns firefox_agent = "Mozilla/5.0*Firefox*".
Proof.
  apply (scan_first_longest [("Mozilla*", compiled "Mozilla*")] []
           "Mozilla/5.0*Firefox*" (compiled "Mozilla/5.0*Firefox*")
           firefox_agent).
  - compute_done.
  - discriminate.
  - intros s re Hin%list_elem_of_singleton _. injection Hin as -> _.
    compute_done.
  - intros s re Hin. by apply elem_of_nil in Hin.
Defined.

(** X11: when one identifier is strictly longer than every other identifier
    whose pattern matches the string, the scan selects it in whatever order
    the table holds the entries; the order in which load visits the set of
    leaf sections then has no influence on the selection. *)
Theorem scan_unique_longest `{PyRuntime} (regexps regexps' : list (string * regex))
    (section : string) (user_agent_re : regex) (user_agent_string : string) :
  (section, user_agent_re) ∈ regexps →
  re_match user_agent_re user_agent_string = true →
  section ≠ "" →
  (∀ s re, (s, re) ∈ regexps → re_match re user_agent_string = true →
     s = section ∨ String.length s < String.length section) →
  regexps' ≡ₚ regexps →
  scan regexps' user_agent_string = section.
Proof.
  intros Hin Hm Hne Hothers Hperm.
  assert (Hmem : ∀ entry, entry ∈ regexps' ↔ entry ∈ regexps)
    by (intros entry; by rewrite Hperm).
  destruct (scan_spec regexps' user_agent_string) as [Hsel Hmax].
  simpl in Hsel, Hmax. apply Hmem in Hin.
  specialize (Hmax _ _ Hin Hm).
  destruct Hsel as [Hnil | (re & Hre & Hmre & _)].
  - rewrite Hnil in Hmax. destruct section; [done | simpl in Hmax; lia].
  - apply Hmem in Hre. destruct (Hothers _ _ Hre Hmre) as [?|?]; [done|lia].
Qed.

Lemma scan_unique_longest_witness :
  scan (reverse two_patterns) firefox_agent = "Mozilla/5.0*Firefox*".
Proof.
  apply (scan_unique_longest two_patterns (reverse two_patterns)
           "Mozilla/5.0*Firefox*" (compiled "Mozilla/5.0*Firefox*")
           firefox_agent).
  - apply list_elem_of_In. right. left. reflexivity.
  - compute_done.
  - discriminate.
  - intros s re Hin _. apply list_elem_of_In in Hin.
    destruct Hin as [Heq|[Heq|[]]]; injection Heq as <- _;
      [right; compute_done | left; reflexivity].
  - apply reverse_Permutation.
Defined.

(** ** The known user agents *)

Section loaded_facts.
Context `{PyRuntime}.
Implicit Types (self : UserAgentParser) (cp : ConfigParser).

Lemma loaded_same_keys cp self :
  loaded cp self →
  dict_keys (user_agent_properties self) = dict_keys (user_agent_regexps self).
Proof.
  induction 1 as [self Hload | self ua safe _ IH].
  - unfold load in Hload. by apply (load_sections_same_keys _ _ init self eq_refl) in Hload.
  - destruct (query_state self ua safe) as [-> | ->]; [done|].
    destruct (match_catalog self ua) as (_ & -> & ->). done.
Qed.

Lemma elem_of_dict_keys {V} (d : list (string * V)) s :
  s ∈ dict_keys d ↔ ∃ v, (s, v) ∈ d.
Proof.
  unfold dict_keys. rewrite list_elem_of_fmap. split.
  - intros ([s' v] & -> & Hin). by exists v.
  - intros [v Hin]. by exists (s, v).
Qed.

(** A loaded parser answers a string that the pattern of some entry with a
    non-empty identifier matches with the stored dict of a section that is
    at least as long. *)
Lemma loaded_query_match cp self ua section user_agent_re :
  loaded cp self →
  (section, user_agent_re) ∈ user_agent_regexps self →
  section ≠ "" →
  re_match user_agent_re ua = true →
  ∃ l, dict_get (__match self ua).2 (user_agent_properties self) = Some l
    ∧ String.length section ≤ String.length (__match self ua).2
    ∧ (__match self ua).2 ∈ dict_keys (user_agent_regexps self)
    ∧ ∀ safe, (query self ua safe).2 = Ok (Stored l).
Proof.
  intros Hloaded Hin Hne Hm.
  destruct (loaded_inv _ _ Hloaded) as [Hp Hr Hk Hn Hc Hcomp].
  destruct (match_scan self ua Hc) as (Hsel & _ & _).
  destruct (scan_spec (user_agent_regexps self) ua) as [Hsome Hmax].
  simpl in Hsome, Hmax. specialize (Hmax _ _ Hin Hm).
  destruct Hsome as [Hnone | (re & Hre & _ & Hnonempty)].
  { rewrite Hnone in Hmax. destruct section; [done | simpl in Hmax; lia]. }
  pose proof (elem_of_dict_get _ _ _ Hn Hre) as Hget.
  destruct (Hr _ _ Hget) as [_ [l Hl]].
  exists l. rewrite Hsel. split_and!; [done | done | |].
  - apply elem_of_dict_keys. by exists re.
  - intros safe. rewrite query_eq, check_init_ok.
    + simpl. rewrite Hsel. unfold answer. by rewrite decide_False, Hl.
    + intros Hnil. rewrite Hnil in Hin. by apply elem_of_nil in Hin.
Qed.
End loaded_facts.

(** X12: on a loaded parser with a non-empty catalog, get_all_user_agents
    returns the keys of the catalog in the order of the pattern table, each
    once: the leaf sections of the file that resolve.  The meta sections
    "*" and "GJK_Browscap_Version" are never among them. *)
Theorem known_user_agents `{PyRuntime} (cp : ConfigParser)
    (self : UserAgentParser) :
  loaded cp self →
  user_agent_regexps self ≠ [] →
  get_all_user_agents self = Ok (dict_keys (user_agent_regexps self))
  ∧ NoDup (dict_keys (user_agent_regexps self))
  ∧ (∀ section,
       section ∈ dict_keys (user_agent_regexps self)
       ↔ section ∈ child_sections (without_meta cp)
         ∧ ∃ properties,
             __get_browser_props recursion_limit (without_meta cp) section
             = Ok properties)
  ∧ ("*" ∉ dict_keys (user_agent_regexps self))
  ∧ ("GJK_Browscap_Version" ∉ dict_keys (user_agent_regexps self)).
Proof.
  intros Hloaded Hne.
  pose proof (loaded_inv _ _ Hloaded) as [Hp Hr Hk Hn Hc Hcomp].
  assert (Hkeys : ∀ section,
            section ∈ dict_keys (user_agent_regexps self)
            ↔ section ∈ child_sections (without_meta cp)
              ∧ ∃ properties,
                  __get_browser_props recursion_limit (without_meta cp) section
                  = Ok properties).
  { intros section. rewrite elem_of_dict_keys. split.
    - intros [re Hin]. by apply (catalog_entries cp self) in Hin as (? & ? & _).
    - intros [Hleaf [d Hd]]. destruct (Hcomp _ _ Hleaf Hd) as [re Hre].
      exists re. by apply dict_get_elem_of. }
  assert (Hmeta : ∀ name, name = "*" ∨ name = "GJK_Browscap_Version" →
            name ∉ dict_keys (user_agent_regexps self)).
  { intros name Hname [Hleaf _]%Hkeys.
    apply elem_of_child_sections in Hleaf as [[raw Hraw] _].
    unfold without_meta, remove_section in Hraw.
    destruct Hname as [-> | ->].
    - by rewrite lookup_delete_ne, lookup_delete_eq in Hraw.
    - by rewrite lookup_delete_eq in Hraw. }
  split_and!; [| done | done | by apply Hmeta; left | by apply Hmeta; right].
  unfold get_all_user_agents. rewrite check_init_ok by done. simpl.
  unfold mret, result_ret. by rewrite (loaded_same_keys cp).
Qed.

Lemma known_user_agents_witness :
  get_all_user_agents mozilla_parser
  = Ok (dict_keys (user_agent_regexps mozilla_parser))
  ∧ NoDup (dict_keys (user_agent_regexps mozilla_parser))
  ∧ (∀ section,
       section ∈ dict_keys (user_agent_regexps mozilla_parser)
       ↔ section ∈ child_sections (without_meta db_mozilla)
         ∧ ∃ properties,
             __get_browser_props recursion_limit (without_meta db_mozilla) section
             = Ok properties)
  ∧ ("*" ∉ dict_keys (user_agent_regexps mozilla_parser))
  ∧ ("GJK_Browscap_Version" ∉ dict_keys (user_agent_regexps mozilla_parser)).
Proof.
  apply (known_user_agents db_mozilla mozilla_parser).
  - apply loaded_load. compute_done.
  - compute_done.
Defined.

(** The file of the Mozilla example: the two leaves are known, the parents
    and the meta sections are not. *)
Example known_user_agents_mozilla :
  get_all_user_agents mozilla_parser
  = Ok ["Mozilla/5.0*Firefox*"; "Mozilla*"].
Proof. compute_done. Qed.

Lemma spec_glob_refl (g : string) : spec_glob g g.
Proof.
  induction g as [|c g IH]; [constructor|].
  destruct (decide (c = "*"%char)) as [->|Hstar].
  { apply (spec_glob_star g "*" g IH). }
  destruct (decide (c = "?"%char)) as [->|Hany]; by constructor.
Qed.

(** X13: with CPython's [re], the pattern of an identifier made of glob syntax
    and literal characters matches the identifier itself.  So on a loaded
    parser, a query for a known user agent (as validate makes for every
    element of get_all_user_agents) finds a section, in either mode: the
    identifier itself or a longer one whose pattern matches it. *)
Theorem known_agent_matches_itself (cp : ConfigParser) (self : UserAgentParser)
    (section : string) :
  loaded cp self →
  section ∈ dict_keys (user_agent_regexps self) →
  section ≠ "" → plain section → no_line_feed section →
  (∃ user_agent_re,
     (section, user_agent_re) ∈ user_agent_regexps self
     ∧ re_match user_agent_re section = true)
  ∧ ∃ l, dict_get (__match self section).2 (user_agent_properties self) = Some l
      ∧ String.length section ≤ String.length (__match self section).2
      ∧ (__match self section).2 ∈ dict_keys (user_agent_regexps self)
      ∧ ∀ safe, (query self section safe).2 = Ok (Stored l).
Proof.
  intros Hloaded [re Hin]%elem_of_dict_keys Hne Hplain Hlf.
  assert (Hm : re_match re section = true).
  { destruct (loaded_inv _ _ Hloaded) as [_ Hr _ Hn _ _].
    destruct (Hr _ _ (elem_of_dict_get _ _ _ Hn Hin)) as [Hc _].
    simpl in Hc. rewrite sre_compile_plain in Hc by done. injection Hc as <-.
    simpl. unfold sre.sre_match. simpl. apply run_glob; [done|].
    apply spec_glob_refl. }
  split; [by exists re|]. by eapply loaded_query_match.
Qed.

Lemma known_agent_matches_itself_witness :
  (∃ user_agent_re,
     ("Mozilla*", user_agent_re) ∈ user_agent_regexps mozilla_parser
     ∧ re_match user_agent_re "Mozilla*" = true)
  ∧ ∃ l, dict_get (__match mozilla_parser "Mozilla*").2
           (user_agent_properties mozilla_parser) = Some l
      ∧ String.length "Mozilla*"
        ≤ String.length (__match mozilla_parser "Mozilla*").2
      ∧ (__match mozilla_parser "Mozilla*").2
        ∈ dict_keys (user_agent_regexps mozilla_parser)
      ∧ ∀ safe, (query mozilla_parser "Mozilla*" safe).2 = Ok (Stored l).
Proof.
  apply (known_agent_matches_itself db_mozilla mozilla_parser "Mozilla*").
  - apply loaded_load. compute_done.
  - compute_done.
  - discriminate.
  - compute_done.
  - compute_done.
Defined.

(** ** Loading the same file again *)

Lemma dict_set_same {V} (k : string) (v : V) (d : list (string * V)) :
  dict_get k d = Some v → dict_set k v d = d.
Proof.
  induction d as [|[k' v'] d IH]; simpl; [done|].
  destruct (decide (k' = k)) as [->|Hne]; [by intros [= ->]|].
  intros Hd. by rewrite IH.
Qed.

Section reload_facts.
Context `{PyRuntime}.
Implicit Types (self : UserAgentParser) (cp : ConfigParser).

Lemma load_sections_frame cp secs self :
  (∀ l d, heap self !! l = Some d →
          heap (load_sections cp secs self).1 !! l = Some d)
  ∧ length (heap self) ≤ length (heap (load_sections cp secs self).1)
  ∧ ∀ s, s ∉ secs →
      dict_get s (user_agent_properties (load_sections cp secs self).1)
      = dict_get s (user_agent_properties self).
Proof.
  revert self. induction secs as [|s0 secs IH]; intros self; [done|]. simpl.
  destruct (__get_browser_props recursion_limit cp s0) as [d0|e0].
  - assert (Hstep :
      (∀ l d, heap self !! l = Some d →
              heap (set_properties s0 d0 self) !! l = Some d)
      ∧ length (heap self) ≤ length (heap (set_properties s0 d0 self))
      ∧ ∀ s, s ≠ s0 →
          dict_get s (user_agent_properties (set_properties s0 d0 self))
          = dict_get s (user_agent_properties self)).
    { simpl. split_and!.
      - intros l d Hl. by apply lookup_app_l_Some.
      - rewrite length_app. lia.
      - intros s Hne. by rewrite dict_get_set_ne. }
    destruct Hstep as (Hh & Hlen & Hp).
    destruct (re_compile (ini_to_regex s0)) as [re0|].
    + destruct (IH (set_regexp s0 re0 (set_properties s0 d0 self)))
        as (Hh' & Hlen' & Hp').
      split_and!.
      * intros l d Hl. by apply Hh', Hh.
      * etrans; [exact Hlen | exact Hlen'].
      * intros s [Hne Hnin]%not_elem_of_cons. rewrite Hp' by done. by apply Hp.
    + split_and!; [done | done |].
      intros s [Hne Hnin]%not_elem_of_cons. by apply Hp.
  - destruct (IH self) as (Hh' & Hlen' & Hp'). split_and!; [done | done |].
    intros s [Hne Hnin]%not_elem_of_cons. by apply Hp'.
Qed.

Lemma load_sections_again cp secs self :
  NoDup secs →
  (∀ s d, s ∈ secs → __get_browser_props recursion_limit cp s = Ok d →
     ∃ re, re_compile (ini_to_regex s) = Some re
       ∧ dict_get s (user_agent_regexps self) = Some re
       ∧ s ∈ dict_keys (user_agent_properties self)) →
  (load_sections cp secs self).2 = None
  ∧ user_agent_regexps (load_sections cp secs self).1 = user_agent_regexps self
  ∧ dict_keys (user_agent_properties (load_sections cp secs self).1)
    = dict_keys (user_agent_properties self)
  ∧ ∀ s d, s ∈ secs → __get_browser_props recursion_limit cp s = Ok d →
      ∃ l, dict_get s (user_agent_properties (load_sections cp secs self).1)
           = Some l
        ∧ length (heap self) ≤ l
        ∧ heap (load_sections cp secs self).1 !! l = Some d.
Proof.
  revert self. induction secs as [|s0 secs IH]; intros self Hnodup Hknown.
  { split_and!; [done..|]. by intros s d ?%elem_of_nil. }
  apply NoDup_cons in Hnodup as [Hs0 Hnodup]. simpl.
  destruct (__get_browser_props recursion_limit cp s0) as [d0|e0] eqn:Hres.
  - destruct (Hknown s0 d0) as (re0 & Hc & Hre & Hkey); [by left | done|].
    rewrite Hc.
    set (self2 := set_regexp s0 re0 (set_properties s0 d0 self)).
    assert (Hregs2 : user_agent_regexps self2 = user_agent_regexps self)
      by (simpl; by apply dict_set_same).
    assert (Hkeys2 : dict_keys (user_agent_properties self2)
                     = dict_keys (user_agent_properties self))
      by (simpl; rewrite dict_keys_set; by rewrite decide_True).
    destruct (IH self2 Hnodup) as (Hnone & Hregs & Hkeys & Hfresh).
    { intros s d Hin Hd. rewrite Hregs2, Hkeys2. apply (Hknown s d); [by right | done]. }
    destruct (load_sections_frame cp secs self2) as (Hh & Hlen & Hp).
    split_and!; [done | congruence | congruence |].
    intros s d [->|Hin]%elem_of_cons Hd.
    + exists (length (heap self)). rewrite Hp by done. simpl.
      rewrite dict_get_set_eq. split_and!; [done | done |].
      apply Hh. simpl. rewrite lookup_app_r, Nat.sub_diag by done.
      rewrite Hres in Hd. by injection Hd as <-.
    + destruct (Hfresh s d Hin Hd) as (l & Hl & Hle & Hd'). exists l.
      split_and!; [done | | done].
      etrans; [|exact Hle]. simpl. rewrite length_app. lia.
  - destruct (IH self Hnodup) as (Hnone & Hregs & Hkeys & Hfresh).
    { intros s d Hin Hd. apply (Hknown s d); [by right | done]. }
    split_and!; [done..|].
    intros s d [->|Hin]%elem_of_cons Hd; [congruence | by apply Hfresh].
Qed.
End reload_facts.

(** X14: loading, on a loaded parser, the file it was loaded from ends
    without an exception and leaves the pattern table, the keys of the
    property table and the cache as they are, but gives every section a new
    dict object with its resolved properties: no entry of the property table
    refers to a dict that existed before the second load, and those dicts
    are left as they were.  A dict that a query returned before the second
    load is from then on no part of the catalog. *)
Theorem reload_same_file `{PyRuntime} (cp : ConfigParser) (self : UserAgentParser) :
  loaded cp self →
  (load cp self).2 = None
  ∧ user_agent_regexps (load cp self).1 = user_agent_regexps self
  ∧ dict_keys (user_agent_properties (load cp self).1)
    = dict_keys (user_agent_properties self)
  ∧ __match_cache (load cp self).1 = __match_cache self
  ∧ (∀ l properties, heap self !! l = Some properties →
       heap (load cp self).1 !! l = Some properties)
  ∧ ∀ section l,
      dict_get section (user_agent_properties (load cp self).1) = Some l →
      length (heap self) ≤ l
      ∧ ∃ properties,
          heap (load cp self).1 !! l = Some properties
          ∧ __get_browser_props recursion_limit (without_meta cp) section
            = Ok properties.
Proof.
  intros Hloaded.
  pose proof (loaded_inv _ _ Hloaded) as [Hp Hr Hk Hn Hc Hcomp].
  pose proof (loaded_same_keys _ _ Hloaded) as Hsame.
  unfold load. fold (without_meta cp).
  set (secs := set_iter (child_sections (without_meta cp))).
  destruct (load_sections_again (without_meta cp) secs self)
    as (Hnone & Hregs & Hkeys & Hfresh).
  { apply NoDup_set_iter. }
  { intros s d Hin%elem_of_set_iter Hd.
    destruct (Hcomp s d Hin Hd) as [re Hre]. exists re.
    destruct (Hr s re Hre) as [Hcompile Hprops].
    split_and!; [done | done | by apply dict_get_is_Some]. }
  destruct (load_sections_frame (without_meta cp) secs self) as (Hh & _ & _).
  split_and!; [done | done | done | apply load_sections_cache | done |].
  intros section l Hl.
  assert (Hkey : section ∈ dict_keys (user_agent_regexps self)).
  { rewrite <- Hsame, <- Hkeys. apply dict_get_is_Some. by eexists. }
  apply dict_get_is_Some in Hkey as [re Hre].
  destruct (Hr _ _ Hre) as [_ [l0 Hl0]].
  destruct (Hp _ _ Hl0) as (d & _ & Hd).
  assert (Hin : section ∈ secs).
  { apply elem_of_set_iter, (proj2 Hk), dict_get_is_Some. by eexists. }
  destruct (Hfresh section d Hin Hd) as (l' & Hl' & Hle & Hd').
  assert (l' = l) as -> by congruence.
  split; [done|]. by exists d.
Qed.

Lemma reload_same_file_witness :
  (load db_mozilla mozilla_parser).2 = None
  ∧ user_agent_regexps (load db_mozilla mozilla_parser).1
    = user_agent_regexps mozilla_parser
  ∧ dict_keys (user_agent_properties (load db_mozilla mozilla_parser).1)
    = dict_keys (user_agent_properties mozilla_parser)
  ∧ __match_cache (load db_mozilla mozilla_parser).1
    = __match_cache mozilla_parser
  ∧ (∀ l properties, heap mozilla_parser !! l = Some properties →
       heap (load db_mozilla mozilla_parser).1 !! l = Some properties)
  ∧ ∀ section l,
      dict_get section (user_agent_properties (load db_mozilla mozilla_parser).1)
      = Some l →
      length (heap mozilla_parser) ≤ l
      ∧ ∃ properties,
          heap (load db_mozilla mozilla_parser).1 !! l = Some properties
          ∧ __get_browser_props recursion_limit (without_meta db_mozilla) section
            = Ok properties.
Proof.
  apply (reload_same_file db_mozilla mozilla_parser).
  apply loaded_load. compute_done.
Defined.

(** The Mozilla file loaded twice: the two sections move from the dicts 0
    and 1 to the dicts 2 and 3. *)
Example reload_db_mozilla :
  user_agent_properties mozilla_parser
  = [("Mozilla/5.0*Firefox*", 0); ("Mozilla*", 1)]
  ∧ user_agent_properties (load db_mozilla mozilla_parser).1
    = [("Mozilla/5.0*Firefox*", 2); ("Mozilla*", 3)]
  ∧ length (heap (load db_mozilla mozilla_parser).1) = 4.
Proof. compute_done. Qed.

(** ** Identifiers and their patterns *)

Lemma str_app_cancel_dollar (a b : string) : a +:+ "$" = b +:+ "$" → a = b.
Proof.
  revert b. induction a as [|x a IH]; intros [|y b] Heq; [done | | |].
  - change ("$" = String y (b +:+ "$")) in Heq. injection Heq as _ Heq.
    by destruct b.
  - change (String x (a +:+ "$") = "$") in Heq. injection Heq as _ Heq.
    by destruct a.
  - change (String x (a +:+ "$") = String y (b +:+ "$")) in Heq.
    injection Heq as -> Heq. f_equal. by apply IH.
Qed.

(** What a character becomes, by its kind. *)
Lemma spec_glob_char_cases (c : ascii) :
  (c ∈ str_list unsafe_chars ∧ spec_glob_char c = escaped c)
  ∨ (c = "?"%char ∧ spec_glob_char c = ".")
  ∨ (c = "*"%char ∧ spec_glob_char c = ".*?")
  ∨ ((c ∉ str_list unsafe_chars) ∧ c ≠ "?"%char ∧ c ≠ "*"%char
     ∧ spec_glob_char c = char_str c).
Proof.
  unfold spec_glob_char. destruct (decide (c ∈ str_list unsafe_chars)); [by left|].
  destruct (decide (c = "?"%char)); [by right; left|].
  destruct (decide (c = "*"%char)); [by right; right; left|].
  by right; right; right.
Qed.

Lemma unsafe_not_glob (c : ascii) :
  c ∈ str_list unsafe_chars →
  c ≠ "?"%char ∧ c ≠ "*"%char ∧ c ≠ "\"%char.
Proof.
  intros Hc. split_and!; intros ->; revert Hc; by compute_done.
Qed.

(** A translated identifier does not start with a star. *)
Lemma translated_head (section : string) (rest : string) :
  str_flat_map spec_glob_char section ≠ String "*"%char rest.
Proof.
  destruct section as [|c s]; [done|]. simpl.
  destruct (spec_glob_char_cases c)
    as [[Hc ->]|[[-> ->]|[[-> ->]|(Hc & H1 & H2 & ->)]]]; try done.
  intros [= ->]. done.
Qed.

Lemma spec_pattern_inj_body (s s' : string) :
  backslash_free s → backslash_free s' →
  str_flat_map spec_glob_char s = str_flat_map spec_glob_char s' → s = s'.
Proof.
  unfold backslash_free. revert s'.
  induction s as [|c s IH]; intros [|c' s'] Hs Hs' Heq; simpl in *.
  - done.
  - destruct (spec_glob_char_cases c')
      as [[_ E]|[[_ E]|[[_ E]|(_ & _ & _ & E)]]]; by rewrite E in Heq.
  - destruct (spec_glob_char_cases c)
      as [[_ E]|[[_ E]|[[_ E]|(_ & _ & _ & E)]]]; by rewrite E in Heq.
  - apply not_elem_of_cons in Hs as [Hc Hs].
    apply not_elem_of_cons in Hs' as [Hc' Hs'].
    assert (c = c' ∧ str_flat_map spec_glob_char s
                     = str_flat_map spec_glob_char s') as [-> Htail].
    { destruct (spec_glob_char_cases c)
        as [[U E]|[[Q E]|[[S E]|(U & N1 & N2 & E)]]];
      destruct (spec_glob_char_cases c')
        as [[U' E']|[[Q' E']|[[S' E']|(U' & N1' & N2' & E')]]];
      rewrite E, E' in Heq; unfold escaped, char_str in Heq;
      injection Heq; intros; subst;
      try done;
      try (by exfalso; eapply translated_head);
      try (by exfalso; eapply translated_head; symmetry);
      try (exfalso; first [apply U; compute_done | apply U'; compute_done]). }
    f_equal. by apply IH.
Qed.

(** X15: two different identifiers without backslash never get the same
    pattern: on them the translation of load can be undone. *)
Theorem ini_to_regex_distinct (section section' : string) :
  backslash_free section → backslash_free section' →
  section ≠ section' →
  ini_to_regex section ≠ ini_to_regex section'.
Proof.
  intros Hs Hs' Hne Heq. apply Hne. rewrite !ini_to_regex_spec in Heq.
  unfold spec_pattern in Heq.
  change ("^" +:+ ?x +:+ "$") with (String "^"%char (x +:+ "$")) in Heq.
  injection Heq as Heq. apply str_app_cancel_dollar in Heq.
  by apply spec_pattern_inj_body.
Qed.

Lemma ini_to_regex_distinct_witness :
  ini_to_regex "Mozilla?" ≠ ini_to_regex "Mozilla.".
Proof.
  apply ini_to_regex_distinct; [compute_done | compute_done | discriminate].
Defined.

(** A backslash is left as it is, so with one the translation collides: the
    identifier with backslash and question mark gets the pattern of the
    identifier with a dot. *)
Example ini_to_regex_backslash :
  ini_to_regex "a\?" = "^a\.$" ∧ ini_to_regex "a." = "^a\.$".
Proof. split; reflexivity. Qed.

(** ** What a load stores, on any parser *)

Section load_stores.
Context `{PyRuntime}.
Implicit Types (self : UserAgentParser) (cp : ConfigParser).

Lemma load_sections_regexps_frame cp secs self s :
  s ∉ secs →
  dict_get s (user_agent_regexps (load_sections cp secs self).1)
  = dict_get s (user_agent_regexps self).
Proof.
  revert self. induction secs as [|s0 secs IH]; intros self Hnin; [done|].
  apply not_elem_of_cons in Hnin as [Hne Hnin]. simpl.
  destruct (__get_browser_props recursion_limit cp s0) as [d0|e0];
    [|by apply IH].
  destruct (re_compile (ini_to_regex s0)) as [re0|]; [|done].
  rewrite IH by done. simpl. by rewrite dict_get_set_ne.
Qed.

Lemma load_sections_stores cp secs self :
  NoDup secs →
  (load_sections cp secs self).2 = None →
  ∀ s d, s ∈ secs → __get_browser_props recursion_limit cp s = Ok d →
    ∃ l re,
      dict_get s (user_agent_properties (load_sections cp secs self).1) = Some l
      ∧ length (heap self) ≤ l
      ∧ heap (load_sections cp secs self).1 !! l = Some d
      ∧ dict_get s (user_agent_regexps (load_sections cp secs self).1) = Some re
      ∧ re_compile (ini_to_regex s) = Some re.
Proof.
  revert self. induction secs as [|s0 secs IH]; intros self Hnodup Hnone s d Hin Hd.
  { by apply elem_of_nil in Hin. }
  apply NoDup_cons in Hnodup as [Hs0 Hnodup]. simpl in Hnone |- *.
  destruct (__get_browser_props recursion_limit cp s0) as [d0|e0] eqn:Hres.
  - destruct (re_compile (ini_to_regex s0)) as [re0|] eqn:Hc; [|done].
    set (self2 := set_regexp s0 re0 (set_properties s0 d0 self)) in *.
    apply elem_of_cons in Hin as [->|Hin].
    + destruct (load_sections_frame cp secs self2) as (Hh & _ & Hp).
      exists (length (heap self)), re0.
      rewrite Hp, load_sections_regexps_frame by done. simpl.
      rewrite !dict_get_set_eq. split_and!; [done | done | | done | done].
      apply Hh. simpl. rewrite lookup_app_r, Nat.sub_diag by done.
      rewrite Hres in Hd. by injection Hd as <-.
    + destruct (IH self2 Hnodup Hnone s d Hin Hd) as (l & re & Hl & Hle & Hrest).
      exists l, re. split_and!; [done | | apply Hrest..].
      etrans; [|exact Hle]. simpl. rewrite length_app. lia.
  - apply elem_of_cons in Hin as [->|Hin]; [congruence|]. by apply IH.
Qed.
End load_stores.

(** X16: after a load that ended without an exception, on a parser in any
    state, every leaf section of the file that resolves is in the catalog:
    the property table refers for it to a dict created by this load, which
    holds the properties resolved from this file, and the pattern table
    holds the compiled pattern of its identifier. *)
Theorem load_stores_leaves `{PyRuntime} (cp : ConfigParser)
    (self : UserAgentParser) (section : string) (properties : props) :
  (load cp self).2 = None →
  section ∈ child_sections (without_meta cp) →
  __get_browser_props recursion_limit (without_meta cp) section = Ok properties →
  ∃ l user_agent_re,
    dict_get section (user_agent_properties (load cp self).1) = Some l
    ∧ length (heap self) ≤ l
    ∧ heap (load cp self).1 !! l = Some properties
    ∧ dict_get section (user_agent_regexps (load cp self).1) = Some user_agent_re
    ∧ re_compile (ini_to_regex section) = Some user_agent_re.
Proof.
  unfold load. fold (without_meta cp). intros Hnone Hleaf Hres.
  apply load_sections_stores; [apply NoDup_set_iter | done | | done].
  by apply elem_of_set_iter.
Qed.

Lemma load_stores_leaves_witness :
  ∃ l user_agent_re,
    dict_get "Mozilla*" (user_agent_properties (load db_mozilla opera_parser).1)
    = Some l
    ∧ length (heap opera_parser) ≤ l
    ∧ heap (load db_mozilla opera_parser).1 !! l
      = Some {[ "parent" := "DefaultProperties"; "browser" := "Mozilla";
                "platform" := "unknown" ]}
    ∧ dict_get "Mozilla*" (user_agent_regexps (load db_mozilla opera_parser).1)
      = Some user_agent_re
    ∧ re_compile (ini_to_regex "Mozilla*") = Some user_agent_re.
Proof.
  apply (load_stores_leaves db_mozilla opera_parser "Mozilla*"); compute_done.
Defined.

(** ** A load on a loaded parser *)

Section reload_merge.
Context `{PyRuntime}.
Implicit Types (self : UserAgentParser) (cp : ConfigParser).

Lemma catalog_tables_inv cp self : catalog_inv cp self → tables_inv self.
Proof.
  intros [Hp Hr Hk Hn Hc Hcomp]. split.
  - done.
  - intros s [re Hre]%dict_get_is_Some. apply dict_get_is_Some.
    by apply (Hr s re).
  - intros s l Hl. destruct (Hp s l Hl) as (d & Hd & _). by eexists.
  - intros ua cached Hcached. rewrite (Hc ua cached Hcached). apply scan_key.
Qed.

(** A query that selects a key of the pattern table returns the dict that
    the property table has for it. *)
Lemma query_selected self ua safe :
  tables_inv self →
  (__match self ua).2 ≠ "" →
  (__match self ua).2 ∈ dict_keys (user_agent_regexps self) →
  ∃ l properties,
    dict_get (__match self ua).2 (user_agent_properties self) = Some l
    ∧ (query self ua safe).2 = Ok (Stored l)
    ∧ heap (query self ua safe).1 !! l = Some properties.
Proof.
  intros [_ Hprops Hheap _] Hne Hkey.
  destruct (proj2 (dict_get_is_Some _ _) (Hprops _ Hkey)) as [l Hl].
  destruct (Hheap _ _ Hl) as [d Hd]. exists l, d. split; [done|].
  rewrite query_eq, check_init_ok.
  - simpl. destruct (match_catalog self ua) as (-> & _ & _).
    split; [|done]. unfold answer. by rewrite decide_False, Hl.
  - intros Hnil. rewrite Hnil in Hkey. by apply elem_of_nil in Hkey.
Qed.

(** What [__match] selects after a load on a loaded parser, for a string
    that a pattern of the old table matches: a key of the new table that is
    at least as long as the section of that pattern. *)
Lemma reload_selects cp1 cp2 secs self1 section user_agent_re ua :
  catalog_inv cp1 self1 →
  (section, user_agent_re) ∈ user_agent_regexps self1 →
  section ≠ "" → re_match user_agent_re ua = true →
  let self2 := (load_sections cp2 secs self1).1 in
  String.length section ≤ String.length (__match self2 ua).2
  ∧ (__match self2 ua).2 ≠ ""
  ∧ (__match self2 ua).2 ∈ dict_keys (user_agent_regexps self2).
Proof.
  intros [Hp Hr Hk Hn Hc Hcomp] Hin Hne Hm self2.
  destruct (load_sections_keeps cp2 secs self1 self2 (load_sections cp2 secs self1).2)
    as (Hkeep & _); [by destruct (load_sections cp2 secs self1) | done |].
  assert (Hpos : 0 < String.length section) by (destruct section; simpl; [done | lia]).
  assert (Hlen : ∀ selected, String.length section ≤ String.length selected →
            selected ≠ "").
  { intros selected Hle ->. simpl in Hle. lia. }
  destruct (__match_cache self2 !! ua) as [cached|] eqn:Hcached.
  - rewrite (match_hit self2 ua cached) by done. simpl.
    unfold self2 in Hcached. rewrite load_sections_cache in Hcached.
    rewrite (Hc ua cached Hcached).
    pose proof (proj2 (scan_spec (user_agent_regexps self1) ua)
                  section user_agent_re Hin Hm) as Hle.
    split_and!; [done | by apply Hlen |].
    destruct (scan_key (user_agent_regexps self1) ua) as [Hempty|Hkey].
    { by apply Hlen in Hle. }
    apply dict_get_is_Some in Hkey as [re' Hre'].
    apply dict_get_is_Some. exists re'. by apply Hkeep.
  - assert (Hsel : (__match self2 ua).2 = scan (user_agent_regexps self2) ua).
    { unfold __match. by rewrite Hcached. }
    rewrite Hsel.
    assert (Hin2 : (section, user_agent_re) ∈ user_agent_regexps self2).
    { by apply dict_get_elem_of, Hkeep, elem_of_dict_get. }
    pose proof (proj2 (scan_spec (user_agent_regexps self2) ua)
                  section user_agent_re Hin2 Hm) as Hle.
    split_and!; [done | by apply Hlen |].
    destruct (scan_key (user_agent_regexps self2) ua) as [Hempty|Hkey]; [|done].
    by apply Hlen in Hle.
Qed.
End reload_merge.

(** C3, as the code has it: a load on a parser that is already loaded merges
    the new file into the catalog.

    It keeps every entry of the old catalog.  A leaf pattern of the old file
    is still in the pattern table after the second load, and it can still be
    matched: for a string that the pattern matches, a scan of the new table
    selects a section at least as long as the pattern's own, and a query
    selects such a section of the table and returns the dict stored for it,
    where a catalog without the old pattern could report the string as
    unknown.  (The identifier of a
    section of a parsed file is never empty; an entry for the empty
    identifier is never selected.)  When the leaf is not a leaf of the new
    file, its entry still refers to the same dict object, which holds the
    properties resolved from the old file.

    It adds the leaves of the new file: when the second load ends without
    an exception, every leaf of the new file that resolves has an entry in
    the property table, which refers to a dict holding the properties
    resolved from the new file, and an entry in the pattern table with the
    compiled pattern of its identifier. *)
Theorem reload_merges_catalog `{PyRuntime} (cp1 cp2 : ConfigParser)
    (self1 self2 : UserAgentParser) (o : option exn) :
  loaded cp1 self1 →
  load cp2 self1 = (self2, o) →
  (∀ section user_agent_re,
     (section, user_agent_re) ∈ user_agent_regexps self1 →
     (section, user_agent_re) ∈ user_agent_regexps self2
     ∧ is_Some (dict_get section (user_agent_properties self2))
     ∧ (∀ user_agent_string,
          re_match user_agent_re user_agent_string = true →
          String.length section
          ≤ String.length (scan (user_agent_regexps self2) user_agent_string))
     ∧ (section ≠ "" →
        ∀ user_agent_string safe,
          re_match user_agent_re user_agent_string = true →
          ∃ l properties,
            String.length section
            ≤ String.length (__match self2 user_agent_string).2
            ∧ (__match self2 user_agent_string).2
              ∈ dict_keys (user_agent_regexps self2)
            ∧ dict_get (__match self2 user_agent_string).2
                (user_agent_properties self2) = Some l
            ∧ (query self2 user_agent_string safe).2 = Ok (Stored l)
            ∧ heap (query self2 user_agent_string safe).1 !! l = Some properties)
     ∧ (section ∉ child_sections (without_meta cp2) →
        ∃ l properties,
          dict_get section (user_agent_properties self1) = Some l
          ∧ heap self1 !! l = Some properties
          ∧ dict_get section (user_agent_properties self2) = Some l
          ∧ heap self2 !! l = Some properties
          ∧ __get_browser_props recursion_limit (without_meta cp1) section
            = Ok properties))
  ∧ (o = None →
     ∀ section properties,
       section ∈ child_sections (without_meta cp2) →
       __get_browser_props recursion_limit (without_meta cp2) section
       = Ok properties →
       ∃ l user_agent_re,
         dict_get section (user_agent_properties self2) = Some l
         ∧ length (heap self1) ≤ l
         ∧ heap self2 !! l = Some properties
         ∧ dict_get section (user_agent_regexps self2) = Some user_agent_re
         ∧ re_compile (ini_to_regex section) = Some user_agent_re).
Proof.
  intros Hloaded Hload.
  pose proof (loaded_inv _ _ Hloaded) as Hinv.
  pose proof Hinv as [Hp Hr Hk Hn Hc Hcomp].
  unfold load in Hload. fold (without_meta cp2) in Hload.
  set (secs := set_iter (child_sections (without_meta cp2))) in *.
  assert (Hself2 : self2 = (load_sections (without_meta cp2) secs self1).1)
    by by rewrite Hload.
  assert (Ho : o = (load_sections (without_meta cp2) secs self1).2)
    by by rewrite Hload.
  destruct (load_sections_keeps _ _ _ _ _ Hload Hr) as (Hkeep & Hheap & Hout & _).
  assert (Htables : tables_inv self2).
  { rewrite Hself2. by eapply tables_inv_load_sections, catalog_tables_inv. }
  split.
  - intros section user_agent_re Hin.
    pose proof (elem_of_dict_get _ _ _ Hn Hin) as Hget.
    assert (Hin2 : (section, user_agent_re) ∈ user_agent_regexps self2)
      by by apply dict_get_elem_of, Hkeep.
    split_and!; [done | | | |].
    + apply dict_get_is_Some, (tables_props _ Htables), dict_get_is_Some.
      exists user_agent_re. by apply Hkeep.
    + intros ua Hm.
      by apply (proj2 (scan_spec (user_agent_regexps self2) ua)
                  section user_agent_re).
    + intros Hne ua safe Hm.
      destruct (reload_selects (without_meta cp1) (without_meta cp2) secs self1
                  section user_agent_re ua Hinv Hin Hne Hm)
        as (Hle & Hsel & Hkey).
      rewrite <- Hself2 in Hle, Hsel, Hkey.
      destruct (query_selected self2 ua safe Htables Hsel Hkey)
        as (l & d & Hl & Hq & Hd).
      by exists l, d.
    + intros Hleaf. destruct (Hr _ _ Hget) as [_ [l Hl]].
      destruct (Hp _ _ Hl) as (d & Hd & Hres). exists l, d.
      split_and!; [done | done | | by apply Hheap | done].
      destruct (Hout section) as [-> _]; [|done].
      unfold secs. by rewrite elem_of_set_iter.
  - intros -> section properties Hleaf Hres.
    rewrite Hself2.
    apply load_sections_stores; [apply NoDup_set_iter | done | | done].
    by apply elem_of_set_iter.
Qed.

Lemma reload_merges_catalog_witness :
  (∃ user_agent_re l properties,
     ("Opera/9.*", user_agent_re) ∈ user_agent_regexps reloaded_parser
     ∧ String.length "Opera/9.*"
       ≤ String.length (__match reloaded_parser opera_agent).2
     ∧ dict_get (__match reloaded_parser opera_agent).2
         (user_agent_properties reloaded_parser) = Some l
     ∧ (query reloaded_parser opera_agent false).2 = Ok (Stored l)
     ∧ heap (query reloaded_parser opera_agent false).1 !! l = Some properties)
  ∧ (∃ l properties,
       dict_get "Opera/9.*" (user_agent_properties opera_parser) = Some l
       ∧ heap opera_parser !! l = Some properties
       ∧ dict_get "Opera/9.*" (user_agent_properties reloaded_parser) = Some l
       ∧ heap reloaded_parser !! l = Some properties
       ∧ __get_browser_props recursion_limit (without_meta db_opera) "Opera/9.*"
         = Ok properties)
  ∧ ∃ l user_agent_re,
      dict_get "Mozilla*" (user_agent_properties reloaded_parser) = Some l
      ∧ length (heap opera_parser) ≤ l
      ∧ heap reloaded_parser !! l
        = Some {[ "parent" := "DefaultProperties"; "browser" := "Mozilla";
                  "platform" := "unknown" ]}
      ∧ dict_get "Mozilla*" (user_agent_regexps reloaded_parser)
        = Some user_agent_re
      ∧ re_compile (ini_to_regex "Mozilla*") = Some user_agent_re.
Proof.
  assert (Hre : ∃ user_agent_re,
            dict_get "Opera/9.*" (user_agent_regexps opera_parser)
            = Some user_agent_re
            ∧ re_match user_agent_re opera_agent = true).
  { eexists. split; vm_compute; reflexivity. }
  destruct Hre as (user_agent_re & Hget & Hmatch).
  assert (Hload : load db_mozilla opera_parser = (reloaded_parser, None))
    by compute_done.
  destruct (reload_merges_catalog db_opera db_mozilla opera_parser
              reloaded_parser None opera_parser_loaded Hload) as [Hkeeps Hadds].
  destruct (Hkeeps "Opera/9.*" user_agent_re (dict_get_elem_of _ _ _ Hget))
    as (Hin & _ & _ & Hquery & Hprops).
  split_and!.
  - destruct (Hquery ltac:(compute_done) opera_agent false Hmatch)
      as (l & properties & Hle & _ & Hl & Hq & Hd).
    exists user_agent_re, l, properties.
    split_and!; [exact Hin | exact Hle | exact Hl | exact Hq | exact Hd].
  - apply Hprops. compute_done.
  - apply (Hadds eq_refl "Mozilla*"); compute_done.
Defined.
